(** * Spoolson: the v1 router, its auth middleware and the root websocket

    Shallow embedding of [spoolman/api/v1/router.py]:
    - [decode_and_check_basic_auth_or_raise] and the [check_auth] middleware,
    - the root websocket handler [notify],
    together with the subscriber registry, the bounded session queue and the
    broadcast dispatcher that the handler and the design document rely on
    ([spoolman.ws] is not part of the visible sources; those parts are modelled
    from the design document and marked as such). *)

From Stdlib Require Import QArith Ascii.
From stdpp Require Import gmap strings list fin_maps fin_sets.

#[local] Set Warnings "-clear-no-such-hyp".

Local Open Scope string_scope.
Local Open Scope nat_scope.
Local Open Scope list_scope.
Local Open Scope stdpp_scope.

(** ** Topic keys and sessions *)

(** A topic key is the tuple of path segments handed to the manager:
    [()] is the root key, [("spool",)] an entity type, [("spool", "5")] one
    entity. *)
Abbreviation TopicKey := (list string) (only parsing).

(** A session is identified by the identity of its websocket object. *)
Abbreviation Session := nat (only parsing).

Definition root_topic : TopicKey := [].

(** ** Subscriber registry *)

Module Registry.

(** Modelled from the spec: the subscriber registry of [spoolman.ws]
    (the object behind [websocket_manager]) is missing from the sources; it
    maps a topic key to the set (bucket) of sessions subscribed at it. *)
Abbreviation t := (gmap TopicKey (gset Session)).

Definition empty : t := ∅.

(** Modelled from the spec: the bucket of a topic; a topic without
    subscribers has the empty bucket. *)
Definition bucket (r : t) (topic : TopicKey) : gset Session :=
  default ∅ (r !! topic).

(** Modelled from the spec: [subscribe(topic, session)], missing from the
    sources: adds the session to the bucket for [topic], at any depth. *)
Definition subscribe (topic : TopicKey) (s : Session) (r : t) : t :=
  <[topic := {[s]} ∪ bucket r topic]> r.

(** Modelled from the spec: [unsubscribe(topic, session)], missing from the
    sources: removes the association, and does nothing when the topic has
    no bucket. *)
Definition unsubscribe (topic : TopicKey) (s : Session) (r : t) : t :=
  match r !! topic with
  | Some b => <[topic := b ∖ {[s]}]> r
  | None => r
  end.

(** The prefixes of a topic, from length 0 to the full length. *)
Definition prefixes (topic : TopicKey) : list TopicKey :=
  (λ n, take n topic) <$> seq 0 (S (length topic)).

(** Modelled from the spec: [matches(event_topic)], missing from the
    sources: walks the prefixes of the event topic from length 0 to the full
    length and collects the bucket found at each of them into one set. *)
Definition matches (r : t) (event_topic : TopicKey) : gset Session :=
  foldr (λ p acc, bucket r p ∪ acc) ∅ (prefixes event_topic).

(** The sessions as the dispatcher iterates over them. *)
Definition matches_list (r : t) (event_topic : TopicKey) : list Session :=
  elements (matches r event_topic).

Definition subscribed (r : t) (topic : TopicKey) (s : Session) : Prop :=
  s ∈ bucket r topic.

End Registry.

(** ** Python values used by the router *)

(** Strings are sequences of characters with code points below 256 (header
    values reach the application decoded as latin-1). *)

(** Truthiness of a [str]: only the empty string is falsy. *)
Definition truthy (s : string) : bool :=
  match s with
  | EmptyString => false
  | String _ _ => true
  end.

(** [x or y] on optional strings: [x] when it is truthy, else [y]. *)
Definition py_or (x y : option string) : option string :=
  match x with
  | Some s => if truthy s then x else y
  | None => y
  end.

Definition ascii_lower (c : ascii) : ascii :=
  let n := nat_of_ascii c in
  if (65 <=? n) && (n <=? 90) then ascii_of_nat (n + 32) else c.

(** [str.lower()] on the ASCII letters.  Characters outside ASCII are never
    mapped to an ASCII letter, so comparisons against ASCII literals (the only
    use the router makes of [lower]) are unaffected. *)
Fixpoint lower (s : string) : string :=
  match s with
  | EmptyString => EmptyString
  | String c rest => String (ascii_lower c) (lower rest)
  end.

(** [s.partition(sep)] for a one-character separator: the part before the
    first occurrence, the separator, the part after it; [(s, "", "")] when the
    separator does not occur. *)
Fixpoint partition (sep : ascii) (s : string) : string * string * string :=
  match s with
  | EmptyString => (EmptyString, EmptyString, EmptyString)
  | String c rest =>
      if Ascii.eqb c sep then (EmptyString, String sep EmptyString, rest)
      else let '(h, m, t) := partition sep rest in (String c h, m, t)
  end.

Definition is_ascii_char (c : ascii) : bool := nat_of_ascii c <? 128.

Fixpoint is_ascii (s : string) : bool :=
  match s with
  | EmptyString => true
  | String c rest => is_ascii_char c && is_ascii rest
  end.

(** Exceptions that cross the functions of the router. *)
Inductive exception : Type :=
  | WebSocketDisconnect
  | HTTPException (status_code : nat) (detail : string)
  | OtherException (name : string).

#[global] Instance exception_eq_dec : EqDecision exception.
Proof. solve_decision. Defined.

(** A small error monad: a call returns a value or raises. *)
Inductive result (A : Type) : Type :=
  | Return (a : A)
  | Raise (e : exception).
Arguments Return {A} a.
Arguments Raise {A} e.

Definition bind {A B : Type} (m : result A) (k : A -> result B) : result B :=
  match m with
  | Return a => k a
  | Raise e => Raise e
  end.

Notation "'let!' x ':=' m 'in' k" := (bind m (fun x => k))
  (at level 10, x name, m at level 100, k at level 200).

(** [secrets.compare_digest(a, b)] on two [str]: equality of the strings; the
    standard library accepts [str] arguments only when both are ASCII and
    raises [TypeError] otherwise. *)
Definition compare_digest (a b : string) : result bool :=
  if is_ascii a && is_ascii b then Return (String.eqb a b)
  else Raise (OtherException "TypeError").

(** [bytes.decode("ascii")]: fails on any byte above 127. *)
Definition decode_ascii (bytes : string) : option string :=
  if is_ascii bytes then Some bytes else None.

(** JSON values sent over the socket. *)
#[local] Set Warnings "-register-all".
Inductive json : Type :=
  | JStr (s : string)
  | JObj (members : list (string * json)).
#[local] Set Warnings "register-all".

(** ** A reference [b64decode]

    The router calls [base64.b64decode] of the standard library in its default,
    non-validating mode.  The router functions below take the decoder as an
    argument; this reference decoder (characters outside the alphabet are
    skipped, decoding stops at a complete pad sequence, an incomplete final
    quad is an error) is the instance used in the concrete runs. *)
Module PyBase64.

Definition value (c : ascii) : option nat :=
  let n := nat_of_ascii c in
  if (65 <=? n) && (n <=? 90) then Some (n - 65)
  else if (97 <=? n) && (n <=? 122) then Some (n - 71)
  else if (48 <=? n) && (n <=? 57) then Some (n + 4)
  else if n =? 43 then Some 62
  else if n =? 47 then Some 63
  else None.

Definition push (out : string) (n : nat) : string :=
  out +:+ String (ascii_of_nat n) EmptyString.

Fixpoint a2b_base64 (data : string) (quad_pos leftchar pads : nat)
    (out : string) : option string :=
  match data with
  | EmptyString => if quad_pos =? 0 then Some out else None
  | String c rest =>
      if Ascii.eqb c "="%char then
        if (2 <=? quad_pos) && (4 <=? quad_pos + S pads) then Some out
        else a2b_base64 rest quad_pos leftchar
               (if 2 <=? quad_pos then S pads else pads) out
      else
        match value c with
        | None => a2b_base64 rest quad_pos leftchar pads out
        | Some v =>
            match quad_pos with
            | 0 => a2b_base64 rest 1 v 0 out
            | 1 => a2b_base64 rest 2 (v mod 16) 0 (push out (leftchar * 4 + v / 16))
            | 2 => a2b_base64 rest 3 (v mod 4) 0 (push out (leftchar * 16 + v / 4))
            | _ => a2b_base64 rest 0 0 0 (push out (leftchar * 64 + v))
            end
        end
  end.

Definition b64decode (s : string) : option string :=
  if is_ascii s then a2b_base64 s 0 0 0 EmptyString else None.

End PyBase64.

(** ** Basic authentication: [decode_and_check_basic_auth_or_raise], [check_auth] *)

Module Auth.

(** The three module-level settings read from [env] when the router is
    imported. *)
Record Config : Type := {
  basic_auth_activated : bool;
  basic_auth_username : string;
  basic_auth_password : string
}.

(** The kind of connection an ASGI scope describes. *)
Inductive ScopeType : Type := Http | Websocket.

(** What the router reads of a request: the scope type and the raw header
    list (names as the server delivers them, lower-cased). *)
Record Request : Type := {
  scope : ScopeType;
  headers : list (string * string)
}.

(** [request.headers.get(key)]: the lookup key is lower-cased and compared
    with the raw header names; the first match wins. *)
Definition headers_get (key : string) (raw : list (string * string))
    : option string :=
  snd <$> List.find (fun kv => String.eqb (fst kv) (lower key)) raw.

(** [fastapi.security.utils.get_authorization_scheme_param]. *)
Definition get_authorization_scheme_param (authorization_header_value : string)
    : string * string :=
  if truthy authorization_header_value then
    let '(scheme, _, param) := partition " "%char authorization_header_value in
    (scheme, param)
  else ("", "").

(** A middleware either hands the request on ([return await
    call_next(request)]) or raises. *)
Inductive MiddlewareResult : Type :=
  | CallNext (request : Request)
  | Raised (e : exception).

Section WithSettings.

(** [base64.b64decode]; [None] when it raises. *)
Variable b64decode : string -> option string.
Variable config : Config.

Definition decode_and_check_basic_auth_or_raise (encoded_credentials : string)
    : result unit :=
  match b64decode encoded_credentials ≫= decode_ascii with
  | None => Raise (HTTPException 401 "invalid token")
  | Some decoded_credentials =>
      let '(username, _, password) := partition ":"%char decoded_credentials in
      let! username_is_valid :=
        compare_digest username (basic_auth_username config) in
      let! password_is_valid :=
        compare_digest password (basic_auth_password config) in
      if negb username_is_valid || negb password_is_valid
      then Raise (HTTPException 401 "invalid username/password")
      else Return tt
  end.

Definition auth_header_of (request : Request) : option string :=
  py_or (headers_get "Authorization" (headers request))
        (headers_get "authorization" (headers request)).

Definition check_auth (request : Request) : MiddlewareResult :=
  if negb (basic_auth_activated config) then CallNext request
  else
    match auth_header_of request with
    | None => Raised (HTTPException 401 "no auth given")
    | Some auth_header =>
        let '(auth_scheme, auth_token) :=
          get_authorization_scheme_param auth_header in
        if String.eqb (lower auth_scheme) "basic" then
          match decode_and_check_basic_auth_or_raise auth_token with
          | Return _ => CallNext request
          | Raise e => Raised e
          end
        else Raised (HTTPException 401 "invalid authentication method")
    end.

End WithSettings.

End Auth.

(** The four cases in which the middleware is said to answer 401, each with
    its detail, written after the specification and not after the code: no
    [Authorization] header; a [Basic] header whose credentials are not
    base64-decodable ASCII; decodable credentials whose user name or password
    differs from the configured one; a scheme other than [Basic]. *)
Inductive Rejected401 (b64decode : string -> option string)
    (config : Auth.Config) (request : Auth.Request) : string -> Prop :=
  | NoAuthGiven :
      Auth.headers_get "Authorization" (Auth.headers request) = None ->
      Rejected401 b64decode config request "no auth given"
  | InvalidToken (h scheme token : string) :
      Auth.headers_get "Authorization" (Auth.headers request) = Some h ->
      Auth.get_authorization_scheme_param h = (scheme, token) ->
      lower scheme = "basic" ->
      b64decode token ≫= decode_ascii = None ->
      Rejected401 b64decode config request "invalid token"
  | InvalidUsernamePassword (h scheme token credentials username sep password : string) :
      Auth.headers_get "Authorization" (Auth.headers request) = Some h ->
      Auth.get_authorization_scheme_param h = (scheme, token) ->
      lower scheme = "basic" ->
      b64decode token ≫= decode_ascii = Some credentials ->
      partition ":"%char credentials = (username, sep, password) ->
      username ≠ Auth.basic_auth_username config
      ∨ password ≠ Auth.basic_auth_password config ->
      Rejected401 b64decode config request "invalid username/password"
  | InvalidAuthenticationMethod (h scheme token : string) :
      Auth.headers_get "Authorization" (Auth.headers request) = Some h ->
      Auth.get_authorization_scheme_param h = (scheme, token) ->
      lower scheme ≠ "basic" ->
      Rejected401 b64decode config request "invalid authentication method".

(** ** The websocket manager *)

Module WebsocketManager.

(** Modelled from the spec: [websocket_manager.connect(pool, websocket)] of
    [spoolman.ws] is missing from the sources; it subscribes the websocket
    at the topic key [pool]. *)
Definition connect (pool : TopicKey) (websocket : Session)
    (r : Registry.t) : Registry.t :=
  Registry.subscribe pool websocket r.

(** Modelled from the spec: [websocket_manager.disconnect(pool, websocket)]
    of [spoolman.ws] is missing from the sources; it unsubscribes the
    websocket from the topic key [pool]. *)
Definition disconnect (pool : TopicKey) (websocket : Session)
    (r : Registry.t) : Registry.t :=
  Registry.unsubscribe pool websocket r.

End WebsocketManager.

(** ** The root websocket handler [notify] *)

Module RootWebsocket.

(** The calls the handler makes, in the order it makes them. *)
Inductive event : Type :=
  | CallAccept
  | CallConnect (pool : TopicKey) (websocket : Session)
  | CallSleep (delay : Q)
  | CallReceiveText
  | CallSendJson (data : json)
  | CallDisconnect (pool : TopicKey) (websocket : Session).

(** Where the coroutine is suspended: at one of its four [await]s, or it
    has finished (returned, or an exception left it). *)
Inductive pc : Type :=
  | AwaitAccept
  | AwaitSleep
  | AwaitReceiveText
  | AwaitSendJson
  | Finished (outcome : result unit).

Record config : Type := {
  at_pc : pc;
  registry : Registry.t;
  trace : list event
}.

Definition healthy : json := JObj [("status", JStr "healthy")].

Definition tick : Q := (1 # 2)%Q.

Definition goto (p : pc) (calls : list event) (c : config) : config :=
  {| at_pc := p; registry := registry c; trace := trace c ++ calls |}.

(** The [except WebSocketDisconnect] clause around the loop: that exception
    is handled by deregistering, any other one leaves the handler. *)
Definition loop_raised (websocket : Session) (e : exception) (c : config)
    : config :=
  match e with
  | WebSocketDisconnect =>
      {| at_pc := Finished (Return tt);
         registry := WebsocketManager.disconnect root_topic websocket (registry c);
         trace := trace c ++ [CallDisconnect root_topic websocket] |}
  | _ => goto (Finished (Raise e)) [] c
  end.

(** One resumption of the coroutine: the pending [await] completes with
    [r] (the value it returns, ignored except for [receive_text], or the
    exception it raises) and the handler runs up to its next [await]. *)
Definition step (websocket : Session) (c : config) (r : result string)
    : config :=
  match at_pc c, r with
  | AwaitAccept, Return _ =>
      {| at_pc := AwaitSleep;
         registry := WebsocketManager.connect root_topic websocket (registry c);
         trace := trace c ++ [CallConnect root_topic websocket; CallSleep tick] |}
  | AwaitAccept, Raise e => goto (Finished (Raise e)) [] c
  | AwaitSleep, Return _ => goto AwaitReceiveText [CallReceiveText] c
  | AwaitReceiveText, Return text =>
      if truthy text then goto AwaitSendJson [CallSendJson healthy] c
      else goto AwaitSleep [CallSleep tick] c
  | AwaitSendJson, Return _ => goto AwaitSleep [CallSleep tick] c
  | (AwaitSleep | AwaitReceiveText | AwaitSendJson), Raise e =>
      loop_raised websocket e c
  | Finished _, _ => c
  end.

(** The handler is entered and calls [websocket.accept()]. *)
Definition start (r : Registry.t) : config :=
  {| at_pc := AwaitAccept; registry := r; trace := [CallAccept] |}.

(** [notify(websocket)] run against a peer whose [await]s complete as the
    script says, one entry per [await]; when the script is used up the
    handler stays suspended at [at_pc]. *)
Definition notify (websocket : Session) (r : Registry.t)
    (script : list (result string)) : config :=
  foldl (step websocket) (start r) script.

Definition returns (r : result string) : Prop :=
  match r with Return _ => True | Raise _ => False end.

(** The handler is suspended inside its [while True] loop. *)
Definition in_loop (p : pc) : Prop :=
  match p with
  | AwaitSleep | AwaitReceiveText | AwaitSendJson => True
  | AwaitAccept | Finished _ => False
  end.

(** The calls of the loop body. *)
Definition loop_call (e : event) : Prop :=
  e = CallSleep tick ∨ e = CallReceiveText ∨ e = CallSendJson healthy.


(** The configuration right after [accept] has returned. *)
Definition accepted (websocket : Session) (r : Registry.t) : config :=
  step websocket (start r) (Return "").


End RootWebsocket.

(** ** Session life cycle *)

Inductive SessionState : Type := Connecting | Open | Closing | Closed.

(** Modelled from the spec: the handler keeps no state field; the life-cycle
    state of its session is read off the point the handler has reached:
    before [accept] completes it is connecting, inside the loop it is open,
    and once the handler has finished the connection is closed. *)
Definition session_state (c : RootWebsocket.config) : SessionState :=
  match RootWebsocket.at_pc c with
  | RootWebsocket.AwaitAccept => Connecting
  | RootWebsocket.Finished _ => Closed
  | _ => Open
  end.

(** ** The application: which code serves which connection *)

Module App.

Inductive Served : Type :=
  | HttpServed (r : Auth.MiddlewareResult)
  | WebsocketServed (c : RootWebsocket.config).

(** A connection attempt at the root path.  [check_auth] is registered with
    [@app.middleware("http")], so it wraps the connections whose scope is
    HTTP; [notify] is registered with [@app.websocket("/")] and serves the
    connections whose scope is a websocket, which the HTTP middleware does
    not wrap. *)
Definition serve_root (b64decode : string -> option string)
    (config : Auth.Config) (request : Auth.Request)
    (websocket : Session) (script : list (result string))
    (r : Registry.t) : Served :=
  match Auth.scope request with
  | Auth.Http => HttpServed (Auth.check_auth b64decode config request)
  | Auth.Websocket => WebsocketServed (RootWebsocket.notify websocket r script)
  end.

End App.

(** ** Bounded session queues and the broadcast dispatcher *)

Module Broadcast.

(** Modelled from the spec: the outbound queue of a connection session
    (bounded, FIFO) is missing from the sources. *)
Record ConnectionSession : Type := {
  capacity : nat;
  outbound : list json
}.

(** Modelled from the spec: [enqueue(payload) -> bool], missing from the
    sources: appends the payload when the queue has room and answers
    [true]; answers [false] and drops the payload when the queue is
    full. *)
Definition enqueue (payload : json) (cs : ConnectionSession)
    : bool * ConnectionSession :=
  if length (outbound cs) <? capacity cs
  then (true, {| capacity := capacity cs; outbound := outbound cs ++ [payload] |})
  else (false, cs).

Record ChangeEvent : Type := {
  origin : TopicKey;
  payload : json
}.

(** Modelled from the spec: [publish(event)], missing from the sources:
    looks up [matches(event.topic)] and calls [enqueue] on each returned
    session, whatever the previous [enqueue] answered. *)
Definition publish (r : Registry.t) (ev : ChangeEvent)
    (sessions : gmap Session ConnectionSession) : gmap Session ConnectionSession :=
  foldr (fun id acc => alter (fun cs => snd (enqueue (payload ev) cs)) id acc)
        sessions (Registry.matches_list r (origin ev)).

Definition publish_all (r : Registry.t) (evs : list ChangeEvent)
    (sessions : gmap Session ConnectionSession) : gmap Session ConnectionSession :=
  foldl (fun acc ev => publish r ev acc) sessions evs.

End Broadcast.

(** ** More of the handler's trace *)

Module Trace.

(** Every [send_json] in the trace directly follows a [receive_text]. *)
Definition solicited (tr : list RootWebsocket.event) : Prop :=
  ∀ pre d post, tr = pre ++ RootWebsocket.CallSendJson d :: post →
                ∃ pre', pre = pre' ++ [RootWebsocket.CallReceiveText].

(** Two completions of an [await] that the handler cannot tell apart: the
    same exception, or two returned values of the same truthiness. *)
Definition same_shape (x y : result string) : Prop :=
  match x, y with
  | Return a, Return b => truthy a = truthy b
  | Raise e, Raise e' => e = e'
  | _, _ => False
  end.

Definition is_disconnect (e : RootWebsocket.event) : Prop :=
  match e with
  | RootWebsocket.CallDisconnect _ _ => True
  | _ => False
  end.

(** How the handler ends when the exception [e] is raised inside its loop. *)
Definition loop_outcome (e : exception) : result unit :=
  match e with
  | WebSocketDisconnect => Return tt
  | _ => Raise e
  end.

End Trace.

(** ** The handler against a clock *)

Module Timed.

(** A run of the handler with a clock.  Every completion of the pending
    [await] comes with the seconds that passed since the handler made the
    call; the calls the handler makes on being resumed are stamped with the
    time of the resumption.  Between two completions the handler is
    suspended and makes no call. *)
Record state : Type := {
  now : Q;
  conf : RootWebsocket.config;
  stamped : list (Q * RootWebsocket.event)
}.



Definition start (r : Registry.t) : state :=
  {| now := 0%Q;
     conf := RootWebsocket.start r;
     stamped := [(0%Q, RootWebsocket.CallAccept)] |}.


End Timed.

(** [c] occurs in [s]. *)
Fixpoint contains (c : ascii) (s : string) : bool :=
  match s with
  | EmptyString => false
  | String c' rest => Ascii.eqb c' c || contains c rest
  end.

(** ** The HTTP side: the middleware in the application *)

Module Http.

(** What an endpoint, a handler or the framework answers: an explicit
    [JSONResponse] or [PlainTextResponse], or a response model (its class
    name and fields) that the framework serialises. *)
Inductive Response : Type :=
  | JSONResponse (status_code : nat) (content : json)
  | PlainTextResponse (status_code : nat) (content : string)
  | Model (name : string) (fields : list (string * json)).

(** [health()]. *)
Definition health : Response := Model "HealthCheck" [("status", JStr "healthy")].

(** [check_auth(request, call_next)] with its [call_next] spelled out:
    [Auth.check_auth] says whether the request is handed on, and then the
    answer is whatever [call_next] gives. *)
Definition middleware {W : Type} (b64decode : string -> option string)
    (config : Auth.Config)
    (call_next : Auth.Request -> W -> result Response * W)
    (request : Auth.Request) (w : W) : result Response * W :=
  match Auth.check_auth b64decode config request with
  | Auth.CallNext request' => call_next request' w
  | Auth.Raised e => (Raise e, w)
  end.

(** The outermost layer of the application, the framework's
    [ServerErrorMiddleware]: an exception that reaches it is answered with
    status 500. *)
Definition server_error_middleware (inner : result Response) : Response :=
  match inner with
  | Return response => response
  | Raise _ => PlainTextResponse 500 "Internal Server Error"
  end.

(** An HTTP request through the application.  The framework puts the
    function registered with [@app.middleware("http")] directly inside
    [ServerErrorMiddleware]; the layer that turns an [HTTPException] into a
    response of its status, the other exception handlers and the routes all
    lie behind [call_next].  An exception raised by [check_auth] itself
    therefore meets no exception handler. *)
Definition app {W : Type} (b64decode : string -> option string)
    (config : Auth.Config)
    (call_next : Auth.Request -> W -> result Response * W)
    (request : Auth.Request) (w : W) : Response * W :=
  let '(inner, w') := middleware b64decode config call_next request w in
  (server_error_middleware inner, w').

End Http.

(** * Properties *)

(** ** The registry *)

Section RegistryFacts.

Import Registry.

Implicit Types (r : Registry.t) (s : nat) (topic p : list string).

Lemma bucket_empty topic : bucket Registry.empty topic = ∅.
Proof. unfold bucket, Registry.empty. by rewrite lookup_empty. Qed.

Lemma bucket_subscribe topic s r p :
  bucket (subscribe topic s r) p =
  if decide (topic = p) then {[s]} ∪ bucket r topic else bucket r p.
Proof.
  unfold subscribe, bucket at 1. rewrite lookup_insert.
  by case_decide.
Qed.

Lemma bucket_unsubscribe topic s r p :
  bucket (unsubscribe topic s r) p =
  if decide (topic = p) then bucket r topic ∖ {[s]} else bucket r p.
Proof.
  unfold unsubscribe, bucket.
  destruct (r !! topic) as [b|] eqn:Hb.
  - rewrite lookup_insert. case_decide; [done | done].
  - destruct (decide (topic = p)) as [<-|]; [| done]. rewrite Hb. simpl. set_solver.
Qed.

Lemma elem_of_prefixes p topic : p ∈ prefixes topic ↔ p `prefix_of` topic.
Proof.
  unfold prefixes. rewrite list_elem_of_fmap. split.
  - intros (n & -> & _). apply prefix_take.
  - intros [k ->]. exists (length p). split.
    + by rewrite take_app_length.
    + apply elem_of_seq. rewrite length_app. lia.
Qed.

Lemma elem_of_collect r s (ps : list (list string)) :
  s ∈ foldr (λ p acc, bucket r p ∪ acc) ∅ ps ↔ ∃ p, p ∈ ps ∧ s ∈ bucket r p.
Proof.
  induction ps as [|q ps IH]; simpl.
  - split; [set_solver | intros (p & Hp & _); by apply not_elem_of_nil in Hp].
  - rewrite elem_of_union, IH. split.
    + intros [Hq | (p & Hp & Hs)]; [exists q | exists p]; split; auto;
        [apply list_elem_of_here | by apply list_elem_of_further].
    + intros (p & Hp & Hs). apply elem_of_cons in Hp as [-> | Hp]; eauto.
Qed.

Lemma elem_of_matches r topic s :
  s ∈ matches r topic ↔ ∃ p, p `prefix_of` topic ∧ s ∈ bucket r p.
Proof.
  unfold matches. rewrite elem_of_collect.
  split; intros (p & Hp & Hs); exists p; split; auto; by apply elem_of_prefixes.
Qed.

Lemma root_matches_everything r topic s :
  s ∈ bucket r root_topic → s ∈ matches r topic.
Proof.
  intros Hs. apply elem_of_matches. exists []. split; [apply prefix_nil | done].
Qed.

Lemma matches_list_spec r topic s :
  s ∈ matches_list r topic ↔ s ∈ matches r topic.
Proof. unfold matches_list. apply elem_of_elements. Qed.

Lemma subscribe_idempotent topic s r :
  subscribe topic s (subscribe topic s r) = subscribe topic s r.
Proof.
  unfold subscribe at 1. rewrite bucket_subscribe.
  destruct (decide (topic = topic)) as [_|]; [| done].
  unfold subscribe. rewrite insert_insert_eq. f_equal. set_solver.
Qed.

Lemma unsubscribe_absent topic s r :
  s ∉ bucket r topic → unsubscribe topic s r = r.
Proof.
  unfold unsubscribe, bucket. intros Hs.
  destruct (r !! topic) as [b|] eqn:Hb; [| done]. simpl in Hs.
  apply insert_id. rewrite Hb. f_equal. set_solver.
Qed.

Lemma bucket_round_trip topic s r p :
  s ∉ bucket r topic →
  bucket (unsubscribe topic s (subscribe topic s r)) p = bucket r p.
Proof.
  intros Hs. rewrite bucket_unsubscribe, !bucket_subscribe.
  destruct (decide (topic = p)) as [<-|]; [| done].
  destruct (decide (topic = topic)); [| done]. set_solver.
Qed.

End RegistryFacts.

(** C1 (as amended).  A session is returned by [matches] for an event topic
    exactly when it is subscribed at some prefix of that topic (the topic
    itself and the root key included); hence a session whose only
    subscription is at [T1] is returned exactly when [T1] is a prefix of the
    event topic.  The sessions handed to the dispatcher contain no session
    twice, however many ancestor levels it is subscribed at. *)
Theorem matches_iff_subscribed_at_a_prefix (r : Registry.t) (T2 : list string) (s : nat) :
  (s ∈ Registry.matches r T2 ↔
     ∃ T1, T1 `prefix_of` T2 ∧ Registry.subscribed r T1 s)
  ∧ (∀ T1, Registry.subscribed r T1 s →
       (∀ T, Registry.subscribed r T s → T = T1) →
       (s ∈ Registry.matches r T2 ↔ T1 `prefix_of` T2))
  ∧ (s ∈ Registry.matches_list r T2 ↔ s ∈ Registry.matches r T2)
  ∧ NoDup (Registry.matches_list r T2).
Proof.
  split; [apply elem_of_matches |]. split; [| split].
  - intros T1 H1 Honly. rewrite elem_of_matches. split.
    + intros (p & Hp & Hs). by rewrite <- (Honly p Hs).
    + intros Hp. by exists T1.
  - apply matches_list_spec.
  - apply NoDup_elements.
Qed.

(** C1, a concrete registry: session 1 subscribed at the root and at
    [["spool"]], session 2 at [["spool"; "5"]] only. *)
Lemma matches_iff_subscribed_at_a_prefix_witness :
  let r := Registry.subscribe ["spool"] 1
             (Registry.subscribe ["spool"; "5"] 2
                (Registry.subscribe [] 1 Registry.empty)) in
  (2 ∈ Registry.matches r ["spool"; "5"] ↔ ["spool"; "5"] `prefix_of` ["spool"; "5"])
  ∧ NoDup (Registry.matches_list r ["spool"; "5"]).
Proof.
  intros r.
  destruct (matches_iff_subscribed_at_a_prefix r ["spool"; "5"] 2)
    as (_ & Hone & _ & Hnodup).
  split; [| exact Hnodup].
  apply Hone.
  - unfold Registry.subscribed, r. rewrite !bucket_subscribe. simpl. set_solver.
  - intros T. unfold Registry.subscribed, r. rewrite !bucket_subscribe, bucket_empty.
    repeat case_decide; subst; try done; set_solver.
Defined.

(** C1 as stated fails for a session with two subscriptions: session 1 is
    subscribed at [["spool"]] and at the root; it is returned for the event
    topic [["vendor"]] (through the root) although [["spool"]] is no prefix of
    [["vendor"]]. *)
Lemma matches_not_only_via_given_topic :
  let r := Registry.subscribe ["spool"] 1 (Registry.subscribe [] 1 Registry.empty) in
  Registry.subscribed r ["spool"] 1
  ∧ ¬ (1 ∈ Registry.matches r ["vendor"] ↔ ["spool"] `prefix_of` ["vendor"]).
Proof.
  intros r. split.
  - unfold Registry.subscribed, r. rewrite bucket_subscribe. simpl. set_solver.
  - intros [Hto _].
    assert (Hin : 1 ∈ Registry.matches r ["vendor"]).
    { apply root_matches_everything. unfold r.
      rewrite !bucket_subscribe, bucket_empty. simpl. set_solver. }
    destruct (Hto Hin) as [k Hk]. discriminate Hk.
Qed.

(** C6 (as amended).  [subscribe] is idempotent; [unsubscribe] of an absent
    association changes nothing; and for a session not already subscribed at
    the topic, [subscribe] followed by [unsubscribe] leaves [matches] of every
    event topic as it was. *)
Theorem subscribe_unsubscribe_round_trip (r : Registry.t) (T : list string) (s : nat) :
  Registry.subscribe T s (Registry.subscribe T s r) = Registry.subscribe T s r
  ∧ (¬ Registry.subscribed r T s →
       Registry.unsubscribe T s r = r
       ∧ ∀ T', Registry.matches
                 (Registry.unsubscribe T s (Registry.subscribe T s r)) T'
               = Registry.matches r T').
Proof.
  split; [apply subscribe_idempotent |].
  intros Hs. split; [by apply unsubscribe_absent |].
  intros T'. apply set_eq. intros x. rewrite !elem_of_matches.
  split; intros (p & Hp & Hx); exists p; split; auto.
  - by rewrite bucket_round_trip in Hx.
  - by rewrite bucket_round_trip.
Qed.

(** C6, a concrete registry: session 1 is subscribed at [["spool"]]; session 2
    subscribes at [["spool"; "5"]] and unsubscribes again. *)
Lemma subscribe_unsubscribe_round_trip_witness :
  let r := Registry.subscribe ["spool"] 1 Registry.empty in
  Registry.unsubscribe ["spool"; "5"] 2 r = r
  ∧ ∀ T', Registry.matches
            (Registry.unsubscribe ["spool"; "5"] 2
               (Registry.subscribe ["spool"; "5"] 2 r)) T'
          = Registry.matches r T'.
Proof.
  intros r. apply (subscribe_unsubscribe_round_trip r ["spool"; "5"] 2).
  unfold Registry.subscribed, r. rewrite bucket_subscribe, bucket_empty. simpl.
  set_solver.
Defined.

(** C6 as stated fails when the session is already subscribed at the topic:
    the idempotent [subscribe] changes nothing and [unsubscribe] then removes
    the earlier subscription, so the session disappears from [matches]. *)
Lemma round_trip_drops_earlier_subscription :
  let r := Registry.subscribe [] 1 Registry.empty in
  Registry.matches (Registry.unsubscribe [] 1 (Registry.subscribe [] 1 r)) []
  ≠ Registry.matches r [].
Proof.
  intros r Heq. apply (f_equal elements) in Heq. vm_compute in Heq. discriminate Heq.
Qed.

(** ** The root websocket handler *)

Section HandlerFacts.

Import RootWebsocket.

Variable websocket : nat.

Implicit Types (c : config) (r : Registry.t) (script body rest : list (result string)).

Lemma notify_snoc r script x :
  notify websocket r (script ++ [x]) = step websocket (notify websocket r script) x.
Proof. unfold notify. by rewrite foldl_app. Qed.

Lemma notify_cons r x script :
  notify websocket r (x :: script)
  = foldl (step websocket) (step websocket (start r) x) script.
Proof. reflexivity. Qed.

Lemma finished_absorbs c o script :
  at_pc c = Finished o → foldl (step websocket) c script = c.
Proof.
  intros Hc. induction script as [|x script IH]; simpl; [done |].
  unfold step at 2. rewrite Hc. exact IH.
Qed.

Lemma split_at_first_raise script :
  Forall returns script
  ∨ ∃ body e rest, script = body ++ Raise e :: rest ∧ Forall returns body.
Proof.
  induction script as [|x script IH].
  - left. constructor.
  - destruct x as [v | e].
    + destruct IH as [Hall | (body & e & rest & -> & Hbody)].
      * left. constructor; [exact I | exact Hall].
      * right. exists (Return v :: body), e, rest. split; [done |].
        constructor; [exact I | exact Hbody].
    + right. exists [], e, script. split; [done | constructor].
Qed.

(** While every [await] of the loop returns, the handler stays in the loop,
    makes only calls of the loop body and leaves the registry alone. *)
Lemma run_loop c body :
  in_loop (at_pc c) → Forall returns body →
  ∃ tail, Forall loop_call tail
          ∧ in_loop (at_pc (foldl (step websocket) c body))
          ∧ registry (foldl (step websocket) c body) = registry c
          ∧ trace (foldl (step websocket) c body) = trace c ++ tail.
Proof.
  intros Hc Hbody. revert c Hc.
  induction Hbody as [|x body Hx _ IH]; intros c Hc; simpl.
  - exists []. rewrite app_nil_r. by repeat split.
  - destruct x as [v | e]; [| destruct Hx].
    assert (Hstep : ∃ e1, loop_call e1 ∧ in_loop (at_pc (step websocket c (Return v)))
               ∧ registry (step websocket c (Return v)) = registry c
               ∧ trace (step websocket c (Return v)) = trace c ++ [e1]).
    { unfold step. destruct (at_pc c) eqn:Hpc; try destruct Hc; simpl.
      - exists CallReceiveText. unfold loop_call. by eauto 6.
      - destruct (truthy v); simpl.
        + exists (CallSendJson healthy). unfold loop_call. by eauto 6.
        + exists (CallSleep tick). unfold loop_call. by eauto 6.
      - exists (CallSleep tick). unfold loop_call. by eauto 6. }
    destruct Hstep as (e1 & He1 & Hin & Hreg & Htr).
    destruct (IH _ Hin) as (tail & Htail & Hin' & Hreg' & Htr').
    exists (e1 :: tail). split; [by constructor |]. split; [done |].
    split; [by rewrite Hreg' |]. rewrite Htr', Htr, <- app_assoc. done.
Qed.

Lemma step_accept r v :
  step websocket (start r) (Return v) = accepted websocket r.
Proof. reflexivity. Qed.

(** The run after a successful [accept], as long as nothing is raised. *)
Lemma notify_running r v body :
  Forall returns body →
  ∃ tail, Forall loop_call tail
    ∧ in_loop (at_pc (notify websocket r (Return v :: body)))
    ∧ registry (notify websocket r (Return v :: body))
      = Registry.subscribe root_topic websocket r
    ∧ trace (notify websocket r (Return v :: body))
      = CallAccept :: CallConnect root_topic websocket :: tail.
Proof.
  intros Hbody. rewrite notify_cons, step_accept.
  destruct (run_loop (accepted websocket r) body I Hbody) as (tail & Htail & Hin & Hreg & Htr).
  exists (CallSleep tick :: tail). split.
  { constructor; [by left | done]. }
  split; [done |]. split; [by rewrite Hreg |]. by rewrite Htr.
Qed.

(** The run up to and including the first exception raised in the loop. *)
Lemma notify_raised r v body e rest :
  Forall returns body →
  notify websocket r (Return v :: body ++ Raise e :: rest)
  = loop_raised websocket e (notify websocket r (Return v :: body)).
Proof.
  intros Hbody.
  destruct (notify_running r v body Hbody) as (tail & _ & Hin & _ & _).
  change (Return v :: body ++ Raise e :: rest)
    with ((Return v :: body) ++ Raise e :: rest).
  unfold notify in *. rewrite foldl_app.
  set (c := foldl (step websocket) (start r) (Return v :: body)) in *.
  change (foldl (step websocket) c (Raise e :: rest))
    with (foldl (step websocket) (step websocket c (Raise e)) rest).
  assert (Hstep : step websocket c (Raise e) = loop_raised websocket e c).
  { unfold step. destruct (at_pc c); try destruct Hin; reflexivity. }
  rewrite Hstep. destruct e; simpl; by erewrite finished_absorbs.
Qed.

(** The run that ends with [WebSocketDisconnect] raised in the loop. *)
Lemma notify_disconnected r v body rest :
  Forall returns body →
  ∃ tail, Forall loop_call tail
    ∧ at_pc (notify websocket r (Return v :: body ++ Raise WebSocketDisconnect :: rest))
      = Finished (Return tt)
    ∧ registry (notify websocket r (Return v :: body ++ Raise WebSocketDisconnect :: rest))
      = Registry.unsubscribe root_topic websocket
          (Registry.subscribe root_topic websocket r)
    ∧ trace (notify websocket r (Return v :: body ++ Raise WebSocketDisconnect :: rest))
      = CallAccept :: CallConnect root_topic websocket
        :: tail ++ [CallDisconnect root_topic websocket].
Proof.
  intros Hbody. rewrite notify_raised by done.
  destruct (notify_running r v body Hbody) as (tail & Htail & _ & Hreg & Htr).
  exists tail. simpl. rewrite Hreg, Htr. by repeat split.
Qed.

Lemma notify_accept_failed r e rest :
  notify websocket r (Raise e :: rest) = goto (Finished (Raise e)) [] (start r).
Proof. rewrite notify_cons. by erewrite finished_absorbs. Qed.

Lemma loop_call_not_connect tail pool w :
  Forall loop_call tail → CallConnect pool w ∉ tail.
Proof.
  intros Hall Hin. rewrite Forall_forall in Hall.
  destruct (Hall _ Hin) as [H | [H | H]]; discriminate H.
Qed.

Lemma loop_call_not_disconnect tail pool w :
  Forall loop_call tail → CallDisconnect pool w ∉ tail.
Proof.
  intros Hall Hin. rewrite Forall_forall in Hall.
  destruct (Hall _ Hin) as [H | [H | H]]; discriminate H.
Qed.

End HandlerFacts.

(** C2.  A client connecting to the root websocket is registered at the root
    (empty) topic key, and only once [accept] has returned: while [accept] is
    pending nothing is registered; when [accept] raises, the handler ends with
    that exception, the registry is untouched and no [connect] call is made;
    when [accept] returns, the very next call is [connect((), websocket)]
    and the session sits in the root bucket.  Any [connect] call in any run is
    this one. *)
Theorem root_connect_registers_after_accept
    (websocket : nat) (r : Registry.t) (script : list (result string)) :
  let c := RootWebsocket.notify websocket r script in
  (script = [] →
     RootWebsocket.registry c = r ∧ RootWebsocket.trace c = [RootWebsocket.CallAccept])
  ∧ (∀ e rest, script = Raise e :: rest →
       RootWebsocket.at_pc c = RootWebsocket.Finished (Raise e)
       ∧ RootWebsocket.registry c = r
       ∧ RootWebsocket.trace c = [RootWebsocket.CallAccept])
  ∧ (∀ v rest, script = Return v :: rest →
       RootWebsocket.registry (RootWebsocket.notify websocket r [Return v])
         = Registry.subscribe root_topic websocket r
       ∧ Registry.subscribed
           (RootWebsocket.registry (RootWebsocket.notify websocket r [Return v]))
           root_topic websocket
       ∧ ∃ tail, RootWebsocket.trace c
                 = RootWebsocket.CallAccept
                   :: RootWebsocket.CallConnect root_topic websocket :: tail
                 ∧ ∀ pool w, RootWebsocket.CallConnect pool w ∉ tail)
  ∧ (∀ pool w, RootWebsocket.CallConnect pool w ∈ RootWebsocket.trace c →
       pool = root_topic ∧ w = websocket ∧ ∃ v rest, script = Return v :: rest).
Proof.
  intros c.
  assert (Haccepted : ∀ v rest, script = Return v :: rest →
            ∃ tail, RootWebsocket.trace c
                    = RootWebsocket.CallAccept
                      :: RootWebsocket.CallConnect root_topic websocket :: tail
                    ∧ ∀ pool w, RootWebsocket.CallConnect pool w ∉ tail).
  { intros v rest ->. subst c.
    destruct (split_at_first_raise rest) as [Hall | (body & e & rest' & -> & Hbody)].
    - destruct (notify_running websocket r v rest Hall) as (tail & Htail & _ & _ & Htr).
      exists tail. split; [done |]. intros pool w.
      by apply loop_call_not_connect.
    - rewrite notify_raised by done.
      destruct (notify_running websocket r v body Hbody) as (tail & Htail & _ & _ & Htr).
      destruct e; simpl; rewrite Htr.
      + exists (tail ++ [RootWebsocket.CallDisconnect root_topic websocket]).
        split; [done |]. intros pool w Hin.
        apply elem_of_app in Hin as [Hin | Hin].
        * by apply loop_call_not_connect in Hin.
        * apply list_elem_of_singleton in Hin. discriminate Hin.
      + exists tail. rewrite app_nil_r. split; [done |]. intros pool w.
        by apply loop_call_not_connect.
      + exists tail. rewrite app_nil_r. split; [done |]. intros pool w.
        by apply loop_call_not_connect. }
  split; [| split; [| split]].
  - intros ->. by subst c.
  - intros e rest ->. subst c. by rewrite notify_accept_failed.
  - intros v rest Hs. split; [reflexivity |]. split.
    + unfold Registry.subscribed. simpl. unfold WebsocketManager.connect.
      rewrite bucket_subscribe. destruct (decide (root_topic = root_topic)); [| done].
      set_solver.
    + by apply (Haccepted v rest).
  - intros pool w Hin. destruct script as [|[v | e] rest].
    + subst c. simpl in Hin. apply list_elem_of_singleton in Hin. discriminate Hin.
    + destruct (Haccepted v rest eq_refl) as (tail & Htr & Hno).
      rewrite Htr in Hin.
      apply elem_of_cons in Hin as [Hin | Hin]; [discriminate Hin |].
      apply elem_of_cons in Hin as [Hin | Hin]; [| by apply Hno in Hin].
      injection Hin as -> ->. eauto.
    + subst c. rewrite notify_accept_failed in Hin. simpl in Hin.
      apply list_elem_of_singleton in Hin. discriminate Hin.
Qed.

(** C2, two concrete connections of session 7 to an empty registry: one whose
    [accept] raises, one whose [accept] returns and which then receives an
    empty text frame. *)
Lemma root_connect_registers_after_accept_witness :
  RootWebsocket.registry
    (RootWebsocket.notify 7 Registry.empty [Raise (OtherException "RuntimeError")])
  = Registry.empty
  ∧ Registry.subscribed
      (RootWebsocket.registry (RootWebsocket.notify 7 Registry.empty [Return ""]))
      root_topic 7.
Proof.
  split.
  - destruct (root_connect_registers_after_accept 7 Registry.empty
                [Raise (OtherException "RuntimeError")]) as (_ & Hfail & _).
    by destruct (Hfail _ _ eq_refl) as (_ & Hreg & _).
  - destruct (root_connect_registers_after_accept 7 Registry.empty
                [Return ""; Return ""; Return ""]) as (_ & _ & Hok & _).
    by destruct (Hok _ _ eq_refl) as (_ & Hsub & _).
Defined.

(** C4.  When a client-initiated close is detected, that is when an [await] of
    the loop raises [WebSocketDisconnect] after any number of loop steps, the
    handler calls [disconnect] with the topic key and the websocket it gave
    to [connect] (the root key, the same session), returns normally, and the
    session is no longer subscribed at the root key. *)
Theorem root_disconnect_uses_connect_topic
    (websocket : nat) (r : Registry.t) (v : string)
    (body rest : list (result string)) :
  Forall RootWebsocket.returns body →
  let c := RootWebsocket.notify websocket r
             (Return v :: body ++ Raise WebSocketDisconnect :: rest) in
  RootWebsocket.at_pc c = RootWebsocket.Finished (Return tt)
  ∧ (∃ tail, Forall RootWebsocket.loop_call tail
       ∧ RootWebsocket.trace c
         = RootWebsocket.CallAccept
           :: RootWebsocket.CallConnect root_topic websocket
           :: tail ++ [RootWebsocket.CallDisconnect root_topic websocket])
  ∧ (∀ pool w, RootWebsocket.CallDisconnect pool w ∈ RootWebsocket.trace c →
       RootWebsocket.CallConnect pool w ∈ RootWebsocket.trace c)
  ∧ RootWebsocket.registry c
    = Registry.unsubscribe root_topic websocket
        (Registry.subscribe root_topic websocket r)
  ∧ ¬ Registry.subscribed (RootWebsocket.registry c) root_topic websocket.
Proof.
  intros Hbody c. subst c.
  destruct (notify_disconnected websocket r v body rest Hbody)
    as (tail & Htail & Hpc & Hreg & Htr).
  rewrite Hpc, Hreg, Htr.
  split; [done |]. split; [by exists tail |]. split; [| split; [done |]].
  - intros pool w Hin.
    apply elem_of_cons in Hin as [Hin | Hin]; [discriminate Hin |].
    apply elem_of_cons in Hin as [Hin | Hin]; [discriminate Hin |].
    apply elem_of_app in Hin as [Hin | Hin].
    + by apply loop_call_not_disconnect in Hin.
    + apply list_elem_of_singleton in Hin. injection Hin as -> ->.
      simpl. apply list_elem_of_further, list_elem_of_here.
  - unfold Registry.subscribed. rewrite bucket_unsubscribe.
    destruct (decide (root_topic = root_topic)); [| done]. set_solver.
Qed.

(** C4, a concrete run: session 7 connects, answers one ping, and the client
    closes while the handler waits for the next frame. *)
Lemma root_disconnect_uses_connect_topic_witness :
  RootWebsocket.trace
    (RootWebsocket.notify 7 Registry.empty
       [Return ""; Return ""; Return "ping"; Return ""; Return "";
        Raise WebSocketDisconnect])
  = [RootWebsocket.CallAccept;
     RootWebsocket.CallConnect [] 7;
     RootWebsocket.CallSleep (1 # 2)%Q;
     RootWebsocket.CallReceiveText;
     RootWebsocket.CallSendJson (JObj [("status", JStr "healthy")]);
     RootWebsocket.CallSleep (1 # 2)%Q;
     RootWebsocket.CallReceiveText;
     RootWebsocket.CallDisconnect [] 7]
  ∧ ¬ Registry.subscribed
        (RootWebsocket.registry
           (RootWebsocket.notify 7 Registry.empty
              [Return ""; Return ""; Return "ping"; Return ""; Return "";
               Raise WebSocketDisconnect]))
        root_topic 7.
Proof.
  split; [reflexivity |].
  assert (Hbody : Forall RootWebsocket.returns
                    [Return ""; Return "ping"; Return ""; Return ""]).
  { repeat constructor. }
  exact (proj2 (proj2 (proj2 (proj2
    (root_disconnect_uses_connect_topic 7 Registry.empty ""
       [Return ""; Return "ping"; Return ""; Return ""] [] Hbody))))).
Defined.

(** C10.  The handler calls [disconnect] only when [WebSocketDisconnect] is
    raised inside its loop: a run contains a [disconnect] call exactly when
    [accept] returned and the first exception raised afterwards is
    [WebSocketDisconnect].  Any other exception raised at the pending
    [sleep], [receive_text] or [send_json] leaves the handler as it is,
    without a [disconnect] call, and the session stays subscribed at the root
    key. *)
Theorem root_disconnect_only_on_websocket_disconnect
    (websocket : nat) (r : Registry.t) (script : list (result string)) :
  let c := RootWebsocket.notify websocket r script in
  ((∃ pool w, RootWebsocket.CallDisconnect pool w ∈ RootWebsocket.trace c) ↔
     ∃ v body rest, script = Return v :: body ++ Raise WebSocketDisconnect :: rest
                    ∧ Forall RootWebsocket.returns body)
  ∧ (∀ v body e rest,
       script = Return v :: body ++ Raise e :: rest →
       Forall RootWebsocket.returns body →
       e ≠ WebSocketDisconnect →
       RootWebsocket.at_pc c = RootWebsocket.Finished (Raise e)
       ∧ (∀ pool w, RootWebsocket.CallDisconnect pool w ∉ RootWebsocket.trace c)
       ∧ RootWebsocket.registry c = Registry.subscribe root_topic websocket r
       ∧ Registry.subscribed (RootWebsocket.registry c) root_topic websocket)
  ∧ (∀ c0 e, RootWebsocket.in_loop (RootWebsocket.at_pc c0) →
       e ≠ WebSocketDisconnect →
       RootWebsocket.step websocket c0 (Raise e)
       = RootWebsocket.goto (RootWebsocket.Finished (Raise e)) [] c0).
Proof.
  intros c.
  assert (Hother : ∀ v body e rest,
            script = Return v :: body ++ Raise e :: rest →
            Forall RootWebsocket.returns body →
            e ≠ WebSocketDisconnect →
            RootWebsocket.at_pc c = RootWebsocket.Finished (Raise e)
            ∧ (∀ pool w, RootWebsocket.CallDisconnect pool w ∉ RootWebsocket.trace c)
            ∧ RootWebsocket.registry c = Registry.subscribe root_topic websocket r
            ∧ Registry.subscribed (RootWebsocket.registry c) root_topic websocket).
  { intros v body e rest -> Hbody He. subst c. rewrite notify_raised by done.
    destruct (notify_running websocket r v body Hbody)
      as (tail & Htail & _ & Hreg & Htr).
    assert (Hraised : RootWebsocket.loop_raised websocket e
                        (RootWebsocket.notify websocket r (Return v :: body))
                      = RootWebsocket.goto (RootWebsocket.Finished (Raise e)) []
                          (RootWebsocket.notify websocket r (Return v :: body))).
    { destruct e; [done | reflexivity | reflexivity]. }
    rewrite Hraised. simpl. rewrite Hreg, Htr, app_nil_r.
    split; [done |]. split; [| split; [done |]].
    - intros pool w Hin.
      apply elem_of_cons in Hin as [Hin | Hin]; [discriminate Hin |].
      apply elem_of_cons in Hin as [Hin | Hin]; [discriminate Hin |].
      by apply loop_call_not_disconnect in Hin.
    - unfold Registry.subscribed. rewrite bucket_subscribe.
      destruct (decide (root_topic = root_topic)); [| done]. set_solver. }
  split; [| split; [exact Hother |]].
  - split.
    + intros (pool & w & Hin). destruct script as [|[v | e] script].
      * subst c. simpl in Hin. apply list_elem_of_singleton in Hin. discriminate Hin.
      * destruct (split_at_first_raise script)
          as [Hall | (body & e & rest & -> & Hbody)].
        -- subst c.
           destruct (notify_running websocket r v script Hall)
             as (tail & Htail & _ & _ & Htr).
           rewrite Htr in Hin.
           apply elem_of_cons in Hin as [Hin | Hin]; [discriminate Hin |].
           apply elem_of_cons in Hin as [Hin | Hin]; [discriminate Hin |].
           by apply loop_call_not_disconnect in Hin.
        -- destruct (decide (e = WebSocketDisconnect)) as [-> | He].
           ++ by exists v, body, rest.
           ++ destruct (Hother v body e rest eq_refl Hbody He) as (_ & Hno & _).
              by apply Hno in Hin.
      * subst c. rewrite notify_accept_failed in Hin. simpl in Hin.
        apply list_elem_of_singleton in Hin. discriminate Hin.
    + intros (v & body & rest & -> & Hbody).
      destruct (notify_disconnected websocket r v body rest Hbody)
        as (tail & _ & _ & _ & Htr).
      exists root_topic, websocket. subst c. rewrite Htr.
      do 2 apply list_elem_of_further. apply elem_of_app. right.
      apply list_elem_of_here.
  - intros c0 e Hin He. unfold RootWebsocket.step.
    destruct (RootWebsocket.at_pc c0); try destruct Hin;
      (destruct e; [done | reflexivity | reflexivity]).
Qed.

(** *** The shape of the trace *)

Section TraceShape.

Import RootWebsocket.

Variable websocket : nat.









End TraceShape.

(** *** The handler against a clock *)

Section TimedFacts.

Variable websocket : nat.




End TimedFacts.




(** C10, a concrete run: the client of session 7 sends a binary frame, so
    [receive_text] raises [KeyError]; the handler ends with that exception and
    the session is still subscribed at the root key. *)
Lemma root_disconnect_only_on_websocket_disconnect_witness :
  RootWebsocket.at_pc
    (RootWebsocket.notify 7 Registry.empty
       [Return ""; Return ""; Raise (OtherException "KeyError")])
  = RootWebsocket.Finished (Raise (OtherException "KeyError"))
  ∧ Registry.subscribed
      (RootWebsocket.registry
         (RootWebsocket.notify 7 Registry.empty
            [Return ""; Return ""; Raise (OtherException "KeyError")]))
      root_topic 7.
Proof.
  assert (Hbody : Forall RootWebsocket.returns [Return ""]) by repeat constructor.
  assert (He : OtherException "KeyError" ≠ WebSocketDisconnect) by discriminate.
  destruct (root_disconnect_only_on_websocket_disconnect 7 Registry.empty
              [Return ""; Return ""; Raise (OtherException "KeyError")])
    as (_ & Hother & _).
  destruct (Hother "" [Return ""] (OtherException "KeyError") [] eq_refl Hbody He)
    as (Hpc & _ & _ & Hsub).
  by split.
Defined.

(** C7, the failing run: session 7 connects to an empty registry and its
    client sends a binary frame, so [receive_text] raises [KeyError].  The
    handler has finished: the session is closed.  It is still in the root
    bucket and therefore returned by [matches] for every event topic. *)
Lemma closed_session_still_matched :
  let c := RootWebsocket.notify 7 Registry.empty
             [Return ""; Return ""; Raise (OtherException "KeyError")] in
  session_state c = Closed
  ∧ Registry.subscribed (RootWebsocket.registry c) root_topic 7
  ∧ ∀ T, 7 ∈ Registry.matches (RootWebsocket.registry c) T.
Proof.
  intros c.
  assert (Hsub : Registry.subscribed (RootWebsocket.registry c) root_topic 7).
  { unfold Registry.subscribed, c. simpl. unfold WebsocketManager.connect.
    rewrite bucket_subscribe. simpl. set_solver. }
  split; [reflexivity |]. split; [exact Hsub |].
  intros T. by apply root_matches_everything.
Qed.

(** C5, the failing connection: basic auth is activated and the connection
    carries no [Authorization] header.  As an HTTP request it is refused by
    [check_auth]; as a websocket connection to the root path it is served by
    [notify], which accepts it and registers session 7 at the root key. *)
Lemma unauthenticated_websocket_is_registered :
  let config := {| Auth.basic_auth_activated := true;
                   Auth.basic_auth_username := "user";
                   Auth.basic_auth_password := "pass" |} in
  App.serve_root PyBase64.b64decode config
    {| Auth.scope := Auth.Http; Auth.headers := [] |} 7 [Return ""] Registry.empty
  = App.HttpServed (Auth.Raised (HTTPException 401 "no auth given"))
  ∧ ∃ c, App.serve_root PyBase64.b64decode config
           {| Auth.scope := Auth.Websocket; Auth.headers := [] |} 7 [Return ""]
           Registry.empty
         = App.WebsocketServed c
         ∧ RootWebsocket.at_pc c = RootWebsocket.AwaitSleep
         ∧ Registry.subscribed (RootWebsocket.registry c) root_topic 7.
Proof.
  intros config. split; [reflexivity |].
  eexists. split; [reflexivity |]. split; [reflexivity |].
  unfold Registry.subscribed. simpl. unfold WebsocketManager.connect.
  rewrite bucket_subscribe. simpl. set_solver.
Qed.

(** ** The auth middleware *)

Section AuthFacts.

Import Auth.

Variable b64decode : string -> option string.
Variable config : Config.

Lemma headers_get_any_case raw :
  headers_get "Authorization" raw = headers_get "authorization" raw.
Proof. reflexivity. Qed.

Lemma py_or_same x : py_or x x = x.
Proof. destruct x as [s|]; [| done]. simpl. by destruct (truthy s). Qed.

Lemma auth_header_of_spec request :
  auth_header_of request = headers_get "Authorization" (headers request).
Proof.
  unfold auth_header_of. rewrite <- headers_get_any_case. apply py_or_same.
Qed.

Lemma is_ascii_partition sep s h m t :
  is_ascii s = true → partition sep s = (h, m, t) →
  is_ascii h = true ∧ is_ascii t = true.
Proof.
  revert h m t. induction s as [|c s IH]; intros h m t Hs Hp; simpl in *.
  - by injection Hp as <- <- <-.
  - apply andb_prop in Hs as [Hc Hs].
    destruct (Ascii.eqb c sep).
    + by injection Hp as <- <- <-.
    + destruct (partition sep s) as [[h' m'] t'] eqn:Hrec.
      injection Hp as <- <- <-.
      destruct (IH h' m' t' Hs eq_refl) as [Hh Ht].
      simpl. by rewrite Hc, Hh.
Qed.

Lemma decode_ascii_Some bytes s :
  decode_ascii bytes = Some s → s = bytes ∧ is_ascii s = true.
Proof.
  unfold decode_ascii. destruct (is_ascii bytes) eqn:Hb; [| done].
  by intros [= <-].
Qed.

Lemma decoded_credentials_ascii token credentials :
  b64decode token ≫= decode_ascii = Some credentials →
  is_ascii credentials = true.
Proof.
  destruct (b64decode token) as [bytes|]; simpl; [| done].
  intros H. by apply decode_ascii_Some in H as [_ H].
Qed.

Lemma compare_digest_ascii a b :
  is_ascii a = true → is_ascii b = true →
  compare_digest a b = Return (String.eqb a b).
Proof. intros Ha Hb. unfold compare_digest. by rewrite Ha, Hb. Qed.

Hypothesis username_ascii : is_ascii (basic_auth_username config) = true.
Hypothesis password_ascii : is_ascii (basic_auth_password config) = true.

(** With ASCII settings the credential check never fails with anything but
    the two 401s, and it passes exactly on the configured pair. *)
Lemma decode_and_check_spec token :
  match b64decode token ≫= decode_ascii with
  | None =>
      decode_and_check_basic_auth_or_raise b64decode config token
      = Raise (HTTPException 401 "invalid token")
  | Some credentials =>
      ∃ username sep password,
        partition ":"%char credentials = (username, sep, password)
        ∧ ((username = basic_auth_username config
            ∧ password = basic_auth_password config
            ∧ decode_and_check_basic_auth_or_raise b64decode config token
              = Return tt)
           ∨ ((username ≠ basic_auth_username config
               ∨ password ≠ basic_auth_password config)
              ∧ decode_and_check_basic_auth_or_raise b64decode config token
                = Raise (HTTPException 401 "invalid username/password")))
  end.
Proof.
  unfold decode_and_check_basic_auth_or_raise.
  destruct (b64decode token ≫= decode_ascii) as [credentials|] eqn:Hdec; [| done].
  pose proof (decoded_credentials_ascii _ _ Hdec) as Hcred.
  destruct (partition ":"%char credentials) as [[username sep] password] eqn:Hpart.
  destruct (is_ascii_partition _ _ _ _ _ Hcred Hpart) as [Hu Hp].
  exists username, sep, password. split; [done |].
  rewrite (compare_digest_ascii _ _ Hu username_ascii),
          (compare_digest_ascii _ _ Hp password_ascii).
  simpl.
  destruct (String.eqb username (basic_auth_username config)) eqn:Eu;
    destruct (String.eqb password (basic_auth_password config)) eqn:Ep; simpl.
  - left. apply String.eqb_eq in Eu, Ep. done.
  - right. apply String.eqb_neq in Ep. split; [by right | done].
  - right. apply String.eqb_neq in Eu. split; [by left | done].
  - right. apply String.eqb_neq in Eu. split; [by left | done].
Qed.

Ltac other_case H :=
  inversion H; simplify_eq; try done; try congruence.

(** The middleware either hands the request on, and then none of the four
    cases applies, or raises the 401 of the one case that applies. *)
Lemma check_auth_cases request :
  basic_auth_activated config = true →
  (check_auth b64decode config request = CallNext request
   ∧ ∀ detail, ¬ Rejected401 b64decode config request detail)
  ∨ ∃ detail,
      check_auth b64decode config request = Raised (HTTPException 401 detail)
      ∧ Rejected401 b64decode config request detail
      ∧ ∀ detail', Rejected401 b64decode config request detail' → detail' = detail.
Proof.
  intros Hact. unfold check_auth. rewrite Hact. simpl.
  rewrite auth_header_of_spec.
  destruct (headers_get "Authorization" (headers request)) as [h|] eqn:Hh.
  - destruct (get_authorization_scheme_param h) as [scheme token] eqn:Hsp.
    destruct (String.eqb (lower scheme) "basic") eqn:Hbasic.
    + apply String.eqb_eq in Hbasic.
      pose proof (decode_and_check_spec token) as Hspec.
      destruct (b64decode token ≫= decode_ascii) as [credentials|] eqn:Hdec.
      * destruct Hspec as (username & sep & password & Hpart & Hspec).
        destruct Hspec as [(Hu & Hp & ->) | (Hne & ->)].
        -- left. split; [done |]. intros detail H. other_case H.
           match goal with Hne : _ ∨ _ |- _ => destruct Hne; congruence end.
        -- right. exists "invalid username/password". split; [done |].
           split; [by eapply InvalidUsernamePassword |].
           intros detail' H. other_case H.
      * rewrite Hspec. right. exists "invalid token". split; [done |].
        split; [by eapply InvalidToken |].
        intros detail' H. other_case H.
    + apply String.eqb_neq in Hbasic.
      right. exists "invalid authentication method". split; [done |].
      split; [by eapply InvalidAuthenticationMethod |].
      intros detail' H. other_case H.
  - right. exists "no auth given". split; [done |].
    split; [by apply NoAuthGiven |].
    intros detail' H. other_case H.
Qed.

End AuthFacts.

(** X14.  When basic auth is not activated the middleware hands every
    request on without looking at it.  When it is activated and the
    configured user name and password are ASCII, the middleware raises
    exactly in the four listed cases, each time [HTTPException] with status
    401 and the detail of the case, and hands the request on exactly when
    none of the cases applies. *)
Theorem check_auth_rejects_exactly
    (b64decode : string -> option string) (config : Auth.Config)
    (request : Auth.Request) :
  (Auth.basic_auth_activated config = false →
     Auth.check_auth b64decode config request = Auth.CallNext request)
  ∧ (Auth.basic_auth_activated config = true →
     is_ascii (Auth.basic_auth_username config) = true →
     is_ascii (Auth.basic_auth_password config) = true →
       (∀ e, Auth.check_auth b64decode config request = Auth.Raised e ↔
             ∃ detail, e = HTTPException 401 detail
                       ∧ Rejected401 b64decode config request detail)
       ∧ (Auth.check_auth b64decode config request = Auth.CallNext request ↔
            ∀ detail, ¬ Rejected401 b64decode config request detail)).
Proof.
  split.
  - intros Hoff. unfold Auth.check_auth. by rewrite Hoff.
  - intros Hact Hu Hp.
    destruct (check_auth_cases b64decode config Hu Hp request Hact)
      as [[Hnext Hnone] | (detail & Hraised & Hrej & Honly)].
    + rewrite Hnext. split.
      * intros e. split; [discriminate |].
        intros (detail & _ & Hrej). by apply Hnone in Hrej.
      * done.
    + rewrite Hraised. split.
      * intros e. split.
        -- intros [= <-]. by exists detail.
        -- intros (detail' & -> & Hrej'). by rewrite (Honly detail' Hrej').
      * split; [discriminate |]. intros Hnone. by apply Hnone in Hrej.
Qed.

(** X14, concrete requests against the settings ["user"] / ["pass"]: the right
    credentials are handed on, none of the four cases applies to them, and a
    wrong password is refused with its 401. *)
Lemma check_auth_rejects_exactly_witness :
  let config := {| Auth.basic_auth_activated := true;
                   Auth.basic_auth_username := "user";
                   Auth.basic_auth_password := "pass" |} in
  let good := {| Auth.scope := Auth.Http;
                 Auth.headers := [("authorization", "Basic dXNlcjpwYXNz")] |} in
  let bad := {| Auth.scope := Auth.Http;
                Auth.headers := [("authorization", "Basic dXNlcjpwYXM=")] |} in
  (∀ detail, ¬ Rejected401 PyBase64.b64decode config good detail)
  ∧ ∃ detail, HTTPException 401 "invalid username/password" = HTTPException 401 detail
              ∧ Rejected401 PyBase64.b64decode config bad detail.
Proof.
  intros config good bad.
  assert (Hu : is_ascii (Auth.basic_auth_username config) = true) by reflexivity.
  assert (Hp : is_ascii (Auth.basic_auth_password config) = true) by reflexivity.
  assert (Hact : Auth.basic_auth_activated config = true) by reflexivity.
  split.
  - apply (proj2 (proj2 (check_auth_rejects_exactly PyBase64.b64decode config good)
                    Hact Hu Hp)).
    reflexivity.
  - apply (proj1 (proj2 (check_auth_rejects_exactly PyBase64.b64decode config bad)
                    Hact Hu Hp)).
    reflexivity.
Defined.

Example check_auth_no_header :
  Auth.check_auth PyBase64.b64decode
    {| Auth.basic_auth_activated := true;
       Auth.basic_auth_username := "user"; Auth.basic_auth_password := "pass" |}
    {| Auth.scope := Auth.Http; Auth.headers := [("accept", "*/*")] |}
  = Auth.Raised (HTTPException 401 "no auth given").
Proof. reflexivity. Qed.

Example check_auth_bad_token :
  Auth.check_auth PyBase64.b64decode
    {| Auth.basic_auth_activated := true;
       Auth.basic_auth_username := "user"; Auth.basic_auth_password := "pass" |}
    {| Auth.scope := Auth.Http; Auth.headers := [("authorization", "basic dXNlc")] |}
  = Auth.Raised (HTTPException 401 "invalid token").
Proof. reflexivity. Qed.

Example check_auth_wrong_password :
  Auth.check_auth PyBase64.b64decode
    {| Auth.basic_auth_activated := true;
       Auth.basic_auth_username := "user"; Auth.basic_auth_password := "pass" |}
    {| Auth.scope := Auth.Http; Auth.headers := [("authorization", "BASIC dXNlcjpwYXM=")] |}
  = Auth.Raised (HTTPException 401 "invalid username/password").
Proof. reflexivity. Qed.

Example check_auth_bearer :
  Auth.check_auth PyBase64.b64decode
    {| Auth.basic_auth_activated := true;
       Auth.basic_auth_username := "user"; Auth.basic_auth_password := "pass" |}
    {| Auth.scope := Auth.Http; Auth.headers := [("authorization", "Bearer abc")] |}
  = Auth.Raised (HTTPException 401 "invalid authentication method").
Proof. reflexivity. Qed.

Example check_auth_empty_header :
  Auth.check_auth PyBase64.b64decode
    {| Auth.basic_auth_activated := true;
       Auth.basic_auth_username := "user"; Auth.basic_auth_password := "pass" |}
    {| Auth.scope := Auth.Http; Auth.headers := [("authorization", "")] |}
  = Auth.Raised (HTTPException 401 "invalid authentication method").
Proof. reflexivity. Qed.

(** A configured value that is not ASCII: the password is set to [p],
    character 228, [ss]; the request carries the decodable credentials
    [user:pass], whose password differs from the configured one, so the case
    "invalid username/password" applies; [compare_digest] raises [TypeError]
    and no 401 is raised. *)
Lemma check_auth_type_error_on_non_ascii_setting :
  let config := {| Auth.basic_auth_activated := true;
                   Auth.basic_auth_username := "user";
                   Auth.basic_auth_password :=
                     String "p" (String (ascii_of_nat 228) "ss") |} in
  let request := {| Auth.scope := Auth.Http;
                    Auth.headers := [("authorization", "Basic dXNlcjpwYXNz")] |} in
  Rejected401 PyBase64.b64decode config request "invalid username/password"
  ∧ Auth.check_auth PyBase64.b64decode config request
    = Auth.Raised (OtherException "TypeError").
Proof.
  intros config request. split; [| reflexivity].
  apply (InvalidUsernamePassword PyBase64.b64decode config request
           "Basic dXNlcjpwYXNz" "Basic" "dXNlcjpwYXNz" "user:pass" "user" ":" "pass");
    try reflexivity.
  right. discriminate.
Qed.

(** An exception raised by [check_auth] is answered with status 500,
    whatever lies behind [call_next], and nothing behind it is run. *)
Lemma raised_in_check_auth_is_answered_500
    (W : Type) (b64decode : string -> option string) (config : Auth.Config)
    (call_next : Auth.Request -> W -> result Http.Response * W)
    (request : Auth.Request) (w : W) (e : exception) :
  Auth.check_auth b64decode config request = Auth.Raised e →
  Http.app b64decode config call_next request w
  = (Http.PlainTextResponse 500 "Internal Server Error", w).
Proof.
  intros Hraised. unfold Http.app, Http.middleware. by rewrite Hraised.
Qed.

(** C9, the failing request: basic auth is activated and the HTTP request
    carries no [Authorization] header.  [check_auth] raises [HTTPException]
    with status 401 and the detail "no auth given"; raised in the
    middleware, the exception meets no exception handler, and the
    application answers with status 500, whatever the routes behind
    [call_next] are. *)
Lemma refused_request_is_answered_500 :
  let config := {| Auth.basic_auth_activated := true;
                   Auth.basic_auth_username := "user";
                   Auth.basic_auth_password := "pass" |} in
  let request := {| Auth.scope := Auth.Http; Auth.headers := [] |} in
  Rejected401 PyBase64.b64decode config request "no auth given"
  ∧ Auth.check_auth PyBase64.b64decode config request
    = Auth.Raised (HTTPException 401 "no auth given")
  ∧ ∀ (call_next : Auth.Request -> nat -> result Http.Response * nat) (w : nat),
      Http.app PyBase64.b64decode config call_next request w
      = (Http.PlainTextResponse 500 "Internal Server Error", w).
Proof.
  intros config request. split; [by apply NoAuthGiven |]. split; [reflexivity |].
  intros call_next w.
  by apply (raised_in_check_auth_is_answered_500 nat PyBase64.b64decode config
              call_next request w (HTTPException 401 "no auth given")).
Qed.

(** ** Bounded queues and the dispatcher *)

Section BroadcastFacts.

Import Broadcast.

Implicit Types (cs : ConnectionSession) (ss : gmap nat ConnectionSession)
  (evs : list ChangeEvent) (r : Registry.t).

Lemma enqueue_full payload cs :
  capacity cs ≤ length (outbound cs) → enqueue payload cs = (false, cs).
Proof.
  intros Hfull. unfold enqueue.
  destruct (Nat.ltb_spec (length (outbound cs)) (capacity cs)); [lia | done].
Qed.

Lemma enqueue_room payload cs :
  length (outbound cs) < capacity cs →
  enqueue payload cs
  = (true, {| capacity := capacity cs; outbound := outbound cs ++ [payload] |}).
Proof.
  intros Hroom. unfold enqueue.
  destruct (Nat.ltb_spec (length (outbound cs)) (capacity cs)); [done | lia].
Qed.

Lemma enqueue_capacity payload cs :
  capacity (snd (enqueue payload cs)) = capacity cs.
Proof. unfold enqueue. by destruct (_ <? _). Qed.

Lemma enqueue_outbound payload cs :
  length (outbound cs) ≤ capacity cs →
  outbound (snd (enqueue payload cs))
  = take (capacity cs) (outbound cs ++ [payload]).
Proof.
  intros Hinv. unfold enqueue.
  destruct (Nat.ltb_spec (length (outbound cs)) (capacity cs)); simpl.
  - rewrite take_ge; [done |]. rewrite length_app. simpl. lia.
  - rewrite take_app_le by lia. rewrite take_ge; [done | lia].
Qed.

Lemma take_take_app {A} (n : nat) (l m : list A) :
  take n (take n l ++ m) = take n (l ++ m).
Proof.
  destruct (decide (length l ≤ n)) as [Hle | Hgt].
  - by rewrite (take_ge l n).
  - rewrite (take_app_le l m n) by lia.
    rewrite take_app_le by (rewrite length_take; lia).
    rewrite take_take. f_equal. lia.
Qed.

Lemma foldr_alter_lookup (f : ConnectionSession → ConnectionSession)
    (ids : list nat) ss (k : nat) :
  NoDup ids →
  foldr (λ id acc, alter f id acc) ss ids !! k
  = if decide (k ∈ ids) then f <$> ss !! k else ss !! k.
Proof.
  revert k. induction ids as [|a ids IH]; intros k Hnd; simpl.
  - destruct (decide (k ∈ [])) as [Hin |]; [| done]. by apply not_elem_of_nil in Hin.
  - apply NoDup_cons in Hnd as [Ha Hnd]. rewrite lookup_alter.
    destruct (decide (a = k)) as [<- | Hne].
    + rewrite IH by done. destruct (decide (a ∈ ids)); [done |].
      destruct (decide (a ∈ a :: ids)) as [| Hno]; [done |].
      exfalso. apply Hno, list_elem_of_here.
    + rewrite IH by done.
      destruct (decide (k ∈ ids)) as [Hin | Hout];
        destruct (decide (k ∈ a :: ids)) as [Hin' | Hout']; try done.
      * exfalso. by apply Hout', list_elem_of_further.
      * apply elem_of_cons in Hin' as [-> | Hin']; done.
Qed.

Lemma publish_lookup r ev ss (id : nat) :
  publish r ev ss !! id
  = if decide (id ∈ Registry.matches r (origin ev))
    then (λ cs, snd (enqueue (payload ev) cs)) <$> ss !! id
    else ss !! id.
Proof.
  unfold publish. rewrite foldr_alter_lookup by apply NoDup_elements.
  destruct (decide (id ∈ Registry.matches_list r (origin ev))) as [Hin | Hout];
    destruct (decide (id ∈ Registry.matches r (origin ev))) as [Hin' | Hout'];
    try done.
  - by apply matches_list_spec in Hin.
  - by apply matches_list_spec in Hin'.
Qed.

(** A session matched by every event of a batch ends with the first
    payloads that fit into its queue. *)
Lemma publish_all_matched r evs : ∀ ss (id : nat) cs,
  ss !! id = Some cs →
  (∀ ev, ev ∈ evs → id ∈ Registry.matches r (origin ev)) →
  length (outbound cs) ≤ capacity cs →
  ∃ cs', publish_all r evs ss !! id = Some cs'
         ∧ capacity cs' = capacity cs
         ∧ outbound cs' = take (capacity cs) (outbound cs ++ (payload <$> evs)).
Proof.
  induction evs as [|ev evs IH]; intros ss id cs Hid Hall Hinv.
  - exists cs. simpl. rewrite app_nil_r, take_ge by lia. done.
  - assert (Hev : id ∈ Registry.matches r (origin ev)).
    { apply Hall, list_elem_of_here. }
    assert (Hstep : publish r ev ss !! id = Some (snd (enqueue (payload ev) cs))).
    { rewrite publish_lookup. destruct (decide _); [| done]. by rewrite Hid. }
    destruct (IH (publish r ev ss) id _ Hstep) as (cs' & Hcs' & Hcap & Hout).
    + intros ev' Hev'. by apply Hall, list_elem_of_further.
    + rewrite enqueue_capacity, enqueue_outbound by done.
      rewrite length_take. lia.
    + exists cs'. split; [exact Hcs' |].
      rewrite enqueue_capacity in Hcap, Hout.
      rewrite enqueue_outbound in Hout by done.
      split; [done |]. rewrite Hout, take_take_app, <- app_assoc. done.
Qed.

End BroadcastFacts.

(** C8.  [enqueue] on a full queue answers [false] and leaves the queue as it
    is.  When [N] events, all matched by a slow session with capacity [K < N]
    and by another session whose queue has room for all of them, are
    published in a row, the slow session's queue holds at most [K] payloads
    (the first ones that fit; so at most [K] of the events reach it), while
    the other session's queue holds every one of the [N] payloads, in
    order. *)
Theorem full_queue_drops_without_stalling_others :
  (∀ payload q, Broadcast.capacity q ≤ length (Broadcast.outbound q) →
                Broadcast.enqueue payload q = (false, q))
  ∧ ∀ (r : Registry.t) (evs : list Broadcast.ChangeEvent)
      (ss : gmap nat Broadcast.ConnectionSession)
      (slow other : nat) (cs co : Broadcast.ConnectionSession),
      ss !! slow = Some cs →
      ss !! other = Some co →
      length (Broadcast.outbound cs) ≤ Broadcast.capacity cs →
      (∀ ev, ev ∈ evs → slow ∈ Registry.matches r (Broadcast.origin ev)
                        ∧ other ∈ Registry.matches r (Broadcast.origin ev)) →
      Broadcast.capacity cs < length evs →
      length (Broadcast.outbound co) + length evs ≤ Broadcast.capacity co →
      ∃ cs' co',
        Broadcast.publish_all r evs ss !! slow = Some cs'
        ∧ Broadcast.publish_all r evs ss !! other = Some co'
        ∧ Broadcast.outbound cs'
          = take (Broadcast.capacity cs)
              (Broadcast.outbound cs ++ (Broadcast.payload <$> evs))
        ∧ length (Broadcast.outbound cs') = Broadcast.capacity cs
        ∧ length (Broadcast.outbound cs') - length (Broadcast.outbound cs)
          ≤ Broadcast.capacity cs
        ∧ Broadcast.outbound co'
          = Broadcast.outbound co ++ (Broadcast.payload <$> evs).
Proof.
  split; [intros payload q; apply enqueue_full |].
  intros r evs ss slow other cs co Hslow Hother Hinv Hall HN Hroom.
  destruct (publish_all_matched r evs ss slow cs Hslow) as (cs' & Hcs' & _ & Hout);
    [intros ev Hev; by apply Hall | done |].
  destruct (publish_all_matched r evs ss other co Hother) as (co' & Hco' & _ & Hout');
    [intros ev Hev; by apply Hall | lia |].
  exists cs', co'. split; [done |]. split; [done |]. split; [done |].
  assert (Hlen : length (Broadcast.outbound cs') = Broadcast.capacity cs).
  { rewrite Hout, length_take, length_app, length_fmap. lia. }
  split; [done |]. split; [lia |].
  rewrite Hout'. apply take_ge. rewrite length_app, length_fmap. lia.
Qed.

(** C8, a concrete batch: sessions 1 (capacity 1) and 2 (capacity 5) are both
    subscribed at the root; two events are published.  Session 1 keeps the
    first payload only, session 2 gets both. *)
Lemma full_queue_drops_without_stalling_others_witness :
  let r := Registry.subscribe [] 1 (Registry.subscribe [] 2 Registry.empty) in
  let ss : gmap nat Broadcast.ConnectionSession :=
    <[1 := {| Broadcast.capacity := 1; Broadcast.outbound := [] |}]>
      (<[2 := {| Broadcast.capacity := 5; Broadcast.outbound := [] |}]> ∅) in
  let evs := [ {| Broadcast.origin := ["spool"]; Broadcast.payload := JStr "a" |};
               {| Broadcast.origin := ["spool"; "5"]; Broadcast.payload := JStr "b" |} ] in
  ∃ cs' co',
    Broadcast.publish_all r evs ss !! 1 = Some cs'
    ∧ Broadcast.publish_all r evs ss !! 2 = Some co'
    ∧ Broadcast.outbound cs' = [JStr "a"]
    ∧ Broadcast.outbound co' = [JStr "a"; JStr "b"].
Proof.
  intros r ss evs.
  assert (Hroot : ∀ T, 1 ∈ Registry.matches r T ∧ 2 ∈ Registry.matches r T).
  { intros T. split; apply root_matches_everything; unfold r;
      rewrite !bucket_subscribe, bucket_empty; simpl; set_solver. }
  destruct (proj2 full_queue_drops_without_stalling_others r evs ss 1 2
              {| Broadcast.capacity := 1; Broadcast.outbound := [] |}
              {| Broadcast.capacity := 5; Broadcast.outbound := [] |})
    as (cs' & co' & H1 & H2 & Hout1 & _ & _ & Hout2).
  - reflexivity.
  - reflexivity.
  - simpl. lia.
  - intros ev _. apply Hroot.
  - simpl. lia.
  - simpl. lia.
  - exists cs', co'. by repeat split.
Defined.

(** ** Concrete runs *)

(** Session 1 subscribed at [["spool"]], session 2 at [["spool"; "5"]]: an
    event for spool 5 reaches both, an event for spool 6 only session 1. *)
Example matches_spool_scenario :
  let r := Registry.subscribe ["spool"] 1
             (Registry.subscribe ["spool"; "5"] 2 Registry.empty) in
  Registry.matches_list r ["spool"; "5"] ≡ₚ [1; 2]
  ∧ Registry.matches_list r ["spool"; "6"] = [1]
  ∧ Registry.matches_list r ["vendor"] = [].
Proof.
  intros r. split; [| by vm_compute].
  replace (Registry.matches_list r ["spool"; "5"]) with [2; 1] by (by vm_compute).
  apply Permutation_swap.
Qed.

(** A session subscribed at the root receives every event. *)
Example matches_root_scenario :
  let r := Registry.subscribe [] 3 Registry.empty in
  Registry.matches_list r [] = [3]
  ∧ Registry.matches_list r ["filament"; "12"] = [3].
Proof. vm_compute. repeat split; reflexivity. Qed.

Example b64decode_user_pass :
  PyBase64.b64decode "dXNlcjpwYXNz" = Some "user:pass".
Proof. vm_compute. reflexivity. Qed.

Example b64decode_padding :
  PyBase64.b64decode "YTpi" = Some "a:b"
  ∧ PyBase64.b64decode "YTo=" = Some "a:"
  ∧ PyBase64.b64decode "YQ==" = Some "a"
  ∧ PyBase64.b64decode "YTo" = None
  ∧ PyBase64.b64decode "Y" = None.
Proof. vm_compute. repeat split; reflexivity. Qed.

Example check_auth_not_activated :
  Auth.check_auth PyBase64.b64decode
    {| Auth.basic_auth_activated := false;
       Auth.basic_auth_username := "user"; Auth.basic_auth_password := "pass" |}
    {| Auth.scope := Auth.Http; Auth.headers := [] |}
  = Auth.CallNext {| Auth.scope := Auth.Http; Auth.headers := [] |}.
Proof. reflexivity. Qed.

(** * Further properties of the router *)

(** ** The root websocket handler: how it ends and what it calls *)

Section HandlerMore.

Import RootWebsocket.

Variable websocket : nat.

Implicit Types (c : config) (r : Registry.t) (script body rest : list (result string)).

Lemma at_pc_loop_raised e c :
  at_pc (loop_raised websocket e c) = Finished (Trace.loop_outcome e).
Proof. by destruct e. Qed.

Lemma in_loop_not_finished p o : in_loop p → p ≠ Finished o.
Proof. intros Hp ->. exact Hp. Qed.

Lemma loop_call_no_disconnect tail :
  Forall loop_call tail → Forall (λ e, ¬ Trace.is_disconnect e) tail.
Proof.
  intros Htail. eapply Forall_impl; [exact Htail |].
  intros e [-> | [-> | ->]]; simpl; tauto.
Qed.

(** The three shapes a trace can have. *)
Lemma notify_trace_cases r script :
  (trace (notify websocket r script) = [CallAccept]
   ∧ ∀ o, at_pc (notify websocket r script) ≠ Finished (Return o))
  ∨ (∃ tail, Forall loop_call tail
       ∧ trace (notify websocket r script)
         = CallAccept :: CallConnect root_topic websocket :: tail
       ∧ ∀ o, at_pc (notify websocket r script) ≠ Finished (Return o))
  ∨ (∃ tail, Forall loop_call tail
       ∧ trace (notify websocket r script)
         = CallAccept :: CallConnect root_topic websocket
           :: tail ++ [CallDisconnect root_topic websocket]
       ∧ at_pc (notify websocket r script) = Finished (Return tt)).
Proof.
  destruct script as [|[v | e] script].
  - left. split; [done | discriminate].
  - right. destruct (split_at_first_raise script)
      as [Hall | (body & e & rest & -> & Hbody)].
    + left. destruct (notify_running websocket r v script Hall)
        as (tail & Htail & Hin & _ & Htr).
      exists tail. split; [done |]. split; [done |].
      intros o. by apply in_loop_not_finished.
    + destruct (decide (e = WebSocketDisconnect)) as [-> | He].
      * right. destruct (notify_disconnected websocket r v body rest Hbody)
          as (tail & Htail & Hpc & _ & Htr).
        by exists tail.
      * left. rewrite notify_raised by done.
        destruct (notify_running websocket r v body Hbody)
          as (tail & Htail & _ & _ & Htr).
        exists tail. split; [done |].
        destruct e; [done | |]; simpl; rewrite Htr, app_nil_r;
          (split; [done | discriminate]).
  - left. rewrite notify_accept_failed. split; [done | discriminate].
Qed.

Lemma only_last_is_disconnect (l0 pre post : list event) (x x' : event) :
  Forall (λ e, ¬ Trace.is_disconnect e) l0 →
  Trace.is_disconnect x →
  l0 ++ [x'] = pre ++ x :: post →
  post = [] ∧ pre = l0 ∧ x = x'.
Proof.
  intros Hl0 Hx. revert pre.
  induction Hl0 as [|a l0 Ha _ IH]; intros pre Heq.
  - destruct pre as [|b pre]; simpl in Heq.
    + by injection Heq as <- <-.
    + injection Heq as _ Heq. by destruct pre.
  - destruct pre as [|b pre]; simpl in Heq.
    + injection Heq as -> _. by destruct Ha.
    + injection Heq as <- Heq. destruct (IH pre Heq) as (-> & -> & ->). done.
Qed.

End HandlerMore.

(** X1.  The handler ends only through an exception: it has finished exactly
    when [accept] raised (and then with that exception), or when [accept]
    returned and some later [await] raised; the first such exception decides
    the outcome: a normal return for [WebSocketDisconnect], the exception
    itself otherwise.  As long as every [await] returns, the handler keeps
    running, however long the run. *)
Theorem notify_finishes_only_by_exception
    (websocket : nat) (r : Registry.t) (script : list (result string))
    (o : result unit) :
  (RootWebsocket.at_pc (RootWebsocket.notify websocket r script)
     = RootWebsocket.Finished o ↔
     (∃ e rest, script = Raise e :: rest ∧ o = Raise e)
     ∨ (∃ v body e rest,
          script = Return v :: body ++ Raise e :: rest
          ∧ Forall RootWebsocket.returns body
          ∧ o = Trace.loop_outcome e))
  ∧ (Forall RootWebsocket.returns script →
       RootWebsocket.at_pc (RootWebsocket.notify websocket r script)
         ≠ RootWebsocket.Finished o).
Proof.
  split.
  - split.
    + intros Hfin. destruct script as [|[v | e] script].
      * discriminate Hfin.
      * right. destruct (split_at_first_raise script)
          as [Hall | (body & e & rest & -> & Hbody)].
        -- destruct (notify_running websocket r v script Hall)
             as (_ & _ & Hin & _).
           by apply (in_loop_not_finished _ o) in Hin.
        -- exists v, body, e, rest. split; [done |]. split; [done |].
           rewrite notify_raised, at_pc_loop_raised in Hfin by done.
           by injection Hfin.
      * left. rewrite notify_accept_failed in Hfin. injection Hfin as <-. eauto.
    + intros [(e & rest & -> & ->) | (v & body & e & rest & -> & Hbody & ->)].
      * by rewrite notify_accept_failed.
      * by rewrite notify_raised, at_pc_loop_raised.
  - intros Hall. destruct script as [|x script].
    + discriminate.
    + apply Forall_cons in Hall as [Hx Hall]. destruct x as [v|]; [| destruct Hx].
      destruct (notify_running websocket r v script Hall) as (_ & _ & Hin & _).
      by apply in_loop_not_finished.
Qed.

(** X4.  The handler calls [accept] exactly once, first.  It calls
    [disconnect] at most once, for the root key and its own websocket, as its
    very last call, after which it has returned. *)
Theorem notify_call_discipline
    (websocket : nat) (r : Registry.t) (script : list (result string)) :
  (∃ rest, RootWebsocket.trace (RootWebsocket.notify websocket r script)
           = RootWebsocket.CallAccept :: rest
           ∧ RootWebsocket.CallAccept ∉ rest)
  ∧ (∀ pre pool w post,
       RootWebsocket.trace (RootWebsocket.notify websocket r script)
         = pre ++ RootWebsocket.CallDisconnect pool w :: post →
       post = [] ∧ pool = root_topic ∧ w = websocket
       ∧ Forall (λ e, ¬ Trace.is_disconnect e) pre
       ∧ RootWebsocket.at_pc (RootWebsocket.notify websocket r script)
         = RootWebsocket.Finished (Return tt)).
Proof.
  assert (Hno : ∀ tail, Forall RootWebsocket.loop_call tail →
                        RootWebsocket.CallAccept ∉ tail).
  { intros tail Htail Hin. rewrite Forall_forall in Htail.
    destruct (Htail _ Hin) as [H | [H | H]]; discriminate H. }
  destruct (notify_trace_cases websocket r script)
    as [[Htr _] | [(tail & Htail & Htr & _) | (tail & Htail & Htr & Hpc)]];
    rewrite Htr.
  - split.
    + exists []. split; [done | apply not_elem_of_nil].
    + intros pre pool w post Heq. destruct pre as [|a [|b pre]]; discriminate Heq.
  - split.
    + eexists. split; [done |]. intros Hin.
      apply elem_of_cons in Hin as [Hin | Hin]; [discriminate Hin |].
      by apply Hno in Hin.
    + intros pre pool w post Heq. exfalso.
      assert (Hin : RootWebsocket.CallDisconnect pool w
                    ∈ RootWebsocket.CallAccept
                      :: RootWebsocket.CallConnect root_topic websocket :: tail).
      { rewrite Heq. apply elem_of_app. right. apply list_elem_of_here. }
      apply elem_of_cons in Hin as [Hin | Hin]; [discriminate Hin |].
      apply elem_of_cons in Hin as [Hin | Hin]; [discriminate Hin |].
      by apply loop_call_not_disconnect in Hin.
  - split.
    + eexists. split; [done |]. intros Hin.
      apply elem_of_cons in Hin as [Hin | Hin]; [discriminate Hin |].
      apply elem_of_app in Hin as [Hin | Hin]; [by apply Hno in Hin |].
      apply list_elem_of_singleton in Hin. discriminate Hin.
    + intros pre pool w post Heq.
      change (RootWebsocket.CallAccept
              :: RootWebsocket.CallConnect root_topic websocket
              :: tail ++ [RootWebsocket.CallDisconnect root_topic websocket])
        with ((RootWebsocket.CallAccept
               :: RootWebsocket.CallConnect root_topic websocket :: tail)
              ++ [RootWebsocket.CallDisconnect root_topic websocket]) in Heq.
      apply only_last_is_disconnect in Heq as (-> & -> & Hx); [| | exact I].
      * injection Hx as -> ->. repeat split; try done.
        constructor; [simpl; tauto |]. constructor; [simpl; tauto |].
        by apply loop_call_no_disconnect.
      * constructor; [simpl; tauto |]. constructor; [simpl; tauto |].
        by apply loop_call_no_disconnect.
Qed.

(** ** The root websocket handler: what it sends and what it looks at *)

Section SendsAndFrames.

Import RootWebsocket.

Variable websocket : nat.

Lemma solicited_snoc_other tr e :
  Trace.solicited tr → (∀ d, e ≠ CallSendJson d) → Trace.solicited (tr ++ [e]).
Proof.
  intros Htr He pre d post Heq.
  destruct post as [|x post _] using rev_ind.
  - apply app_inj_tail in Heq as [_ Heq]. by apply He in Heq.
  - change (pre ++ CallSendJson d :: post ++ [x])
      with (pre ++ (CallSendJson d :: post) ++ [x]) in Heq.
    rewrite app_assoc in Heq. apply app_inj_tail in Heq as [Heq _].
    by apply (Htr pre d post).
Qed.

Lemma solicited_snoc_send tr d :
  Trace.solicited tr → (∃ pre, tr = pre ++ [CallReceiveText]) →
  Trace.solicited (tr ++ [CallSendJson d]).
Proof.
  intros Htr Hlast pre d' post Heq.
  destruct post as [|x post _] using rev_ind.
  - apply app_inj_tail in Heq as [Heq _]. by subst pre.
  - change (pre ++ CallSendJson d' :: post ++ [x])
      with (pre ++ (CallSendJson d' :: post) ++ [x]) in Heq.
    rewrite app_assoc in Heq. apply app_inj_tail in Heq as [Heq _].
    by apply (Htr pre d' post).
Qed.

Lemma solicited_goto c p e :
  Trace.solicited (trace c) →
  ((∃ d, e = CallSendJson d) → ∃ pre, trace c = pre ++ [CallReceiveText]) →
  Trace.solicited (trace (goto p [e] c)).
Proof.
  intros Htr He. simpl.
  assert (Hcases : (∃ d, e = CallSendJson d) ∨ ∀ d, e ≠ CallSendJson d).
  { destruct e; try (right; discriminate). left. by eexists. }
  destruct Hcases as [[d ->] | Hno].
  - apply solicited_snoc_send; [done |]. apply He. by eexists.
  - by apply solicited_snoc_other.
Qed.

(** The invariant: sends are solicited so far, and a handler waiting in
    [receive_text] has made that call last. *)
Lemma solicited_step c x :
  Trace.solicited (trace c)
  ∧ (at_pc c = AwaitReceiveText → ∃ pre, trace c = pre ++ [CallReceiveText]) →
  Trace.solicited (trace (step websocket c x))
  ∧ (at_pc (step websocket c x) = AwaitReceiveText →
     ∃ pre, trace (step websocket c x) = pre ++ [CallReceiveText]).
Proof.
  intros [Htr Hlast]. unfold step.
  assert (Hraised : ∀ e, in_loop (at_pc c) →
            Trace.solicited (trace (loop_raised websocket e c))
            ∧ (at_pc (loop_raised websocket e c) = AwaitReceiveText →
               ∃ pre, trace (loop_raised websocket e c) = pre ++ [CallReceiveText])).
  { intros e _. destruct e; simpl; rewrite ?app_nil_r; (split; [| discriminate]);
      try done.
    apply solicited_snoc_other; [done | discriminate]. }
  destruct (at_pc c) eqn:Hpc; destruct x as [v | e];
    try (apply Hraised; exact I).
  - split; [| discriminate]. simpl.
    change (trace c ++ [CallConnect root_topic websocket; CallSleep tick])
      with (trace c ++ [CallConnect root_topic websocket] ++ [CallSleep tick]).
    rewrite app_assoc.
    apply solicited_snoc_other; [| discriminate].
    apply solicited_snoc_other; [done | discriminate].
  - split; [| discriminate]. simpl. by rewrite app_nil_r.
  - split; [| by eexists]. apply solicited_goto; [done |]. by intros [d Hd].
  - destruct (truthy v); (split; [| discriminate]).
    + apply solicited_goto; [done |]. intros _. by apply Hlast.
    + apply solicited_goto; [done |]. by intros [d Hd].
  - split; [| discriminate]. apply solicited_goto; [done |]. by intros [d Hd].
  - split; [done |]. rewrite Hpc. discriminate.
  - split; [done |]. rewrite Hpc. discriminate.
Qed.

Lemma solicited_notify r script :
  Trace.solicited (trace (notify websocket r script))
  ∧ (at_pc (notify websocket r script) = AwaitReceiveText →
     ∃ pre, trace (notify websocket r script) = pre ++ [CallReceiveText]).
Proof.
  induction script as [|x script IH] using rev_ind.
  - split; [| discriminate].
    intros pre d post Heq. destruct pre as [|a [|b pre]]; discriminate Heq.
  - rewrite notify_snoc. by apply solicited_step.
Qed.

Lemma step_same_shape c x y :
  Trace.same_shape x y → step websocket c x = step websocket c y.
Proof.
  intros Hxy. destruct x as [a | e], y as [b | e']; simpl in Hxy; try done.
  - unfold step. destruct (at_pc c); try done. by rewrite Hxy.
  - by subst e'.
Qed.

End SendsAndFrames.

(** X2.  The handler never sends on its own: in every run each [send_json]
    call directly follows a [receive_text] call, so there is at most one
    reply per frame received and no message without one. *)
Theorem notify_sends_only_after_receive
    (websocket : nat) (r : Registry.t) (script : list (result string)) :
  ∀ pre d post,
    RootWebsocket.trace (RootWebsocket.notify websocket r script)
      = pre ++ RootWebsocket.CallSendJson d :: post →
    ∃ pre', pre = pre' ++ [RootWebsocket.CallReceiveText].
Proof. apply (solicited_notify websocket r script). Qed.

(** X2, a concrete run: session 7 answers the frame ["ping"]; the call before
    the reply is the [receive_text]. *)
Lemma notify_sends_only_after_receive_witness :
  ∃ pre', [RootWebsocket.CallAccept; RootWebsocket.CallConnect [] 7;
           RootWebsocket.CallSleep (1 # 2)%Q; RootWebsocket.CallReceiveText]
          = pre' ++ [RootWebsocket.CallReceiveText].
Proof.
  apply (notify_sends_only_after_receive 7 Registry.empty
           [Return ""; Return ""; Return "ping"; Return ""] _
           RootWebsocket.healthy
           [RootWebsocket.CallSleep (1 # 2)%Q]).
  reflexivity.
Defined.

(** X3.  The handler looks at nothing but the emptiness of a text frame: two
    runs whose [await]s complete alike (the same exceptions, returned values
    of the same truthiness) make the same calls, reach the same point and
    leave the same registry, whatever the frames say. *)
Theorem notify_ignores_frame_content
    (websocket : nat) (r : Registry.t) (script1 script2 : list (result string)) :
  Forall2 Trace.same_shape script1 script2 →
  RootWebsocket.notify websocket r script1 = RootWebsocket.notify websocket r script2.
Proof.
  intros Hshape. unfold RootWebsocket.notify.
  generalize (RootWebsocket.start r).
  induction Hshape as [|x y script1 script2 Hxy _ IH]; intros c; simpl; [done |].
  rewrite (step_same_shape websocket c x y Hxy). apply IH.
Qed.

(** X3, two concrete runs: a client that says ["ping"] and one that sends
    ["subscribe spool 5"] get the same treatment. *)
Lemma notify_ignores_frame_content_witness :
  RootWebsocket.notify 7 Registry.empty [Return ""; Return ""; Return "ping"]
  = RootWebsocket.notify 7 Registry.empty
      [Return ""; Return ""; Return "subscribe spool 5"].
Proof.
  apply notify_ignores_frame_content.
  repeat constructor.
Defined.

(** ** Credentials: what [partition] and [compare_digest] make of them *)

Section PartitionFacts.

Variable sep : ascii.

Lemma partition_head_no_sep s h m t :
  partition sep s = (h, m, t) → contains sep h = false.
Proof.
  revert h m t. induction s as [|c s IH]; intros h m t Hp; simpl in Hp.
  - by injection Hp as <- _ _.
  - destruct (Ascii.eqb c sep) eqn:Hc.
    + by injection Hp as <- _ _.
    + destruct (partition sep s) as [[h' m'] t'].
      injection Hp as <- _ _. simpl. rewrite Hc. by apply (IH h' m' t').
Qed.

Lemma partition_join s h m t :
  partition sep s = (h, m, t) →
  s = h +:+ m +:+ t
  ∧ (m = String sep EmptyString ∨ (m = EmptyString ∧ t = EmptyString)).
Proof.
  revert h m t. induction s as [|c s IH]; intros h m t Hp; simpl in Hp.
  - injection Hp as <- <- <-. split; [done | by right].
  - destruct (Ascii.eqb c sep) eqn:Hc.
    + apply Ascii.eqb_eq in Hc as ->. injection Hp as <- <- <-.
      split; [done | by left].
    + destruct (partition sep s) as [[h' m'] t'].
      injection Hp as <- <- <-. destruct (IH h' m' t' eq_refl) as [-> Hm].
      split; [done | exact Hm].
Qed.

Lemma partition_app u p :
  contains sep u = false →
  partition sep (u +:+ String sep p) = (u, String sep EmptyString, p).
Proof.
  induction u as [|c u IH]; simpl; intros Hu.
  - by rewrite Ascii.eqb_refl.
  - apply orb_false_elim in Hu as [Hc Hu]. rewrite Hc, (IH Hu). done.
Qed.

Lemma partition_absent s :
  contains sep s = false → partition sep s = (s, EmptyString, EmptyString).
Proof.
  induction s as [|c s IH]; simpl; intros Hs; [done |].
  apply orb_false_elim in Hs as [Hc Hs]. rewrite Hc, (IH Hs). done.
Qed.

End PartitionFacts.

Lemma append_empty_r s : s +:+ EmptyString = s.
Proof.
  induction s as [|c s IH]; [done |].
  change (String c (s +:+ EmptyString) = String c s). by rewrite IH.
Qed.

Lemma is_ascii_app a b :
  is_ascii (a +:+ b) = is_ascii a && is_ascii b.
Proof.
  induction a as [|c a IH]; simpl; [done |]. by rewrite IH, andb_assoc.
Qed.

Section CredentialFacts.

Import Auth.

Variable b64decode : string -> option string.
Variable config : Config.

(** What a passed credential check tells. *)
Lemma decode_and_check_Return token :
  decode_and_check_basic_auth_or_raise b64decode config token = Return tt →
  ∃ credentials sep,
    b64decode token ≫= decode_ascii = Some credentials
    ∧ partition ":"%char credentials
      = (basic_auth_username config, sep, basic_auth_password config)
    ∧ is_ascii (basic_auth_username config) = true
    ∧ is_ascii (basic_auth_password config) = true.
Proof.
  unfold decode_and_check_basic_auth_or_raise.
  destruct (b64decode token ≫= decode_ascii) as [credentials|] eqn:Hdec;
    [| discriminate].
  destruct (partition ":"%char credentials) as [[username sep] password] eqn:Hpart.
  unfold compare_digest.
  destruct (is_ascii username && is_ascii (basic_auth_username config)) eqn:Hu;
    simpl; [| discriminate].
  destruct (is_ascii password && is_ascii (basic_auth_password config)) eqn:Hp;
    simpl; [| discriminate].
  destruct (String.eqb username (basic_auth_username config)) eqn:Eu;
    simpl; [| discriminate].
  destruct (String.eqb password (basic_auth_password config)) eqn:Ep;
    simpl; [| discriminate].
  intros _. apply String.eqb_eq in Eu, Ep. subst username password.
  apply andb_prop in Hu as [_ Hu], Hp as [_ Hp].
  by exists credentials, sep.
Qed.

(** What a failed credential check raises. *)
Lemma decode_and_check_Raise token e :
  decode_and_check_basic_auth_or_raise b64decode config token = Raise e →
  e = HTTPException 401 "invalid token"
  ∨ e = HTTPException 401 "invalid username/password"
  ∨ (e = OtherException "TypeError"
     ∧ (is_ascii (basic_auth_username config) = false
        ∨ is_ascii (basic_auth_password config) = false)).
Proof.
  unfold decode_and_check_basic_auth_or_raise.
  destruct (b64decode token ≫= decode_ascii) as [credentials|] eqn:Hdec;
    [| intros [= <-]; by left].
  pose proof (decoded_credentials_ascii _ _ _ Hdec) as Hcred.
  destruct (partition ":"%char credentials) as [[username sep] password] eqn:Hpart.
  destruct (is_ascii_partition _ _ _ _ _ Hcred Hpart) as [Hu Hp].
  unfold compare_digest. rewrite Hu, Hp. simpl.
  destruct (is_ascii (basic_auth_username config)); simpl;
    [| intros [= <-]; right; right; split; [done | by left]].
  destruct (is_ascii (basic_auth_password config)); simpl;
    [| intros [= <-]; right; right; split; [done | by right]].
  destruct (negb _ || negb _); [| discriminate].
  intros [= <-]. right. by left.
Qed.

(** What handing a request on tells. *)
Lemma check_auth_CallNext request request' :
  basic_auth_activated config = true →
  check_auth b64decode config request = CallNext request' →
  ∃ h scheme token,
    headers_get "Authorization" (headers request) = Some h
    ∧ get_authorization_scheme_param h = (scheme, token)
    ∧ lower scheme = "basic"
    ∧ decode_and_check_basic_auth_or_raise b64decode config token = Return tt.
Proof.
  intros Hact. unfold check_auth. rewrite Hact. simpl.
  rewrite auth_header_of_spec.
  destruct (headers_get "Authorization" (headers request)) as [h|]; [| discriminate].
  destruct (get_authorization_scheme_param h) as [scheme token] eqn:Hsp.
  destruct (String.eqb (lower scheme) "basic") eqn:Hbasic; [| discriminate].
  apply String.eqb_eq in Hbasic.
  destruct (decode_and_check_basic_auth_or_raise b64decode config token)
    as [[]|e] eqn:Hcheck; [| discriminate].
  intros _. by exists h, scheme, token.
Qed.

End CredentialFacts.

(** X5.  The configured credentials are accepted: with basic auth activated,
    ASCII settings and a user name without a colon, a header made of any
    capitalisation of [Basic], one space and a token that decodes to
    [username:password] is handed on.  The password may itself contain
    colons. *)
Theorem configured_credentials_pass
    (b64decode : string -> option string) (config : Auth.Config)
    (request : Auth.Request) (scheme token : string) :
  Auth.basic_auth_activated config = true →
  is_ascii (Auth.basic_auth_username config) = true →
  is_ascii (Auth.basic_auth_password config) = true →
  contains ":"%char (Auth.basic_auth_username config) = false →
  contains " "%char scheme = false →
  lower scheme = "basic" →
  Auth.headers_get "Authorization" (Auth.headers request)
    = Some (scheme +:+ String " "%char token) →
  b64decode token
    = Some (Auth.basic_auth_username config
            +:+ String ":"%char (Auth.basic_auth_password config)) →
  Auth.check_auth b64decode config request = Auth.CallNext request.
Proof.
  intros Hact Hu Hp Hcolon Hspace Hbasic Hheader Hdec.
  unfold Auth.check_auth. rewrite Hact. simpl.
  rewrite auth_header_of_spec, Hheader.
  unfold Auth.get_authorization_scheme_param.
  assert (Htruthy : truthy (scheme +:+ String " "%char token) = true).
  { by destruct scheme. }
  rewrite Htruthy, (partition_app _ _ _ Hspace), Hbasic. simpl.
  unfold Auth.decode_and_check_basic_auth_or_raise. rewrite Hdec. simpl.
  unfold decode_ascii.
  assert (Hascii : is_ascii (Auth.basic_auth_username config
                             +:+ String ":"%char (Auth.basic_auth_password config))
                   = true).
  { rewrite is_ascii_app. simpl. by rewrite Hu, Hp. }
  rewrite Hascii, (partition_app _ _ _ Hcolon).
  rewrite (compare_digest_ascii _ _ Hu Hu), (compare_digest_ascii _ _ Hp Hp).
  simpl. by rewrite !String.eqb_refl.
Qed.

(** X5, a concrete request: the password ["pa:ss"] contains a colon and the
    scheme is spelled ["bAsIc"]. *)
Lemma configured_credentials_pass_witness :
  let config := {| Auth.basic_auth_activated := true;
                   Auth.basic_auth_username := "user";
                   Auth.basic_auth_password := "pa:ss" |} in
  let request := {| Auth.scope := Auth.Http;
                    Auth.headers := [("authorization", "bAsIc dXNlcjpwYTpzcw==")] |} in
  Auth.check_auth PyBase64.b64decode config request = Auth.CallNext request.
Proof.
  intros config request.
  apply (configured_credentials_pass PyBase64.b64decode config request
           "bAsIc" "dXNlcjpwYTpzcw=="); reflexivity.
Defined.

(** X6.  With ASCII settings the credential check passes exactly when the
    token decodes to ASCII credentials that are the configured user name, a
    colon and the configured password, or, when the configured password is
    empty, the bare user name; in both cases only if the configured user name
    contains no colon. *)
Theorem credentials_accepted_iff
    (b64decode : string -> option string) (config : Auth.Config) (token : string) :
  is_ascii (Auth.basic_auth_username config) = true →
  is_ascii (Auth.basic_auth_password config) = true →
  (Auth.decode_and_check_basic_auth_or_raise b64decode config token = Return tt ↔
   ∃ credentials,
     b64decode token ≫= decode_ascii = Some credentials
     ∧ contains ":"%char (Auth.basic_auth_username config) = false
     ∧ (credentials = Auth.basic_auth_username config
                      +:+ String ":"%char (Auth.basic_auth_password config)
        ∨ (credentials = Auth.basic_auth_username config
           ∧ Auth.basic_auth_password config = EmptyString))).
Proof.
  intros Hu Hp. split.
  - intros Hok.
    destruct (decode_and_check_Return _ _ _ Hok) as (credentials & sep & Hdec & Hpart & _).
    exists credentials. split; [done |].
    split; [by apply (partition_head_no_sep _ _ _ _ _ Hpart) |].
    destruct (partition_join _ _ _ _ _ Hpart) as [-> [-> | [-> Hpass]]].
    + by left.
    + right. split; [| done]. rewrite Hpass. simpl. apply append_empty_r.
  - intros (credentials & Hdec & Hcolon & Hcred).
    pose proof (decode_and_check_spec b64decode config Hu Hp token) as Hspec.
    rewrite Hdec in Hspec.
    destruct Hspec as (username & sep & password & Hpart & Hspec).
    assert (Hparts : username = Auth.basic_auth_username config
                     ∧ password = Auth.basic_auth_password config).
    { destruct Hcred as [-> | [-> Hpass]].
      - rewrite (partition_app _ _ _ Hcolon) in Hpart. by injection Hpart as <- _ <-.
      - rewrite (partition_absent _ _ Hcolon) in Hpart. rewrite Hpass.
        by injection Hpart as <- _ <-. }
    destruct Hparts as [-> ->].
    destruct Hspec as [(_ & _ & Hok) | ([Hne | Hne] & _)]; done.
Qed.

(** X6, a concrete check: the settings ["user"] with an empty password accept
    the credentials ["user"] that carry no colon at all. *)
Lemma credentials_accepted_iff_witness :
  let config := {| Auth.basic_auth_activated := true;
                   Auth.basic_auth_username := "user";
                   Auth.basic_auth_password := "" |} in
  Auth.decode_and_check_basic_auth_or_raise PyBase64.b64decode config "dXNlcg=="
  = Return tt.
Proof.
  intros config.
  apply (credentials_accepted_iff PyBase64.b64decode config "dXNlcg==");
    [reflexivity | reflexivity |].
  exists "user". split; [reflexivity |]. split; [reflexivity |]. by right.
Defined.

(** X7.  A setting that is not ASCII locks everybody out: with basic auth
    activated and a configured user name or password that contains a
    non-ASCII character, no request at all is handed on, whatever it
    carries. *)
Theorem non_ascii_setting_locks_out
    (b64decode : string -> option string) (config : Auth.Config)
    (request request' : Auth.Request) :
  Auth.basic_auth_activated config = true →
  is_ascii (Auth.basic_auth_username config) = false
  ∨ is_ascii (Auth.basic_auth_password config) = false →
  Auth.check_auth b64decode config request ≠ Auth.CallNext request'.
Proof.
  intros Hact Hnon Hnext.
  destruct (check_auth_CallNext _ _ _ _ Hact Hnext) as (h & scheme & token & _ & _ & _ & Hok).
  destruct (decode_and_check_Return _ _ _ Hok) as (_ & _ & _ & _ & Hu & Hp).
  destruct Hnon; congruence.
Qed.

(** X7, a concrete request: the password is set to [p], character 228,
    [ss]; the request that carries exactly these bytes is refused too. *)
Lemma non_ascii_setting_locks_out_witness :
  let password := String "p" (String (ascii_of_nat 228) "ss") in
  let config := {| Auth.basic_auth_activated := true;
                   Auth.basic_auth_username := "user";
                   Auth.basic_auth_password := password |} in
  let request := {| Auth.scope := Auth.Http;
                    Auth.headers := [("authorization", "Basic dXNlcjpw5HNz")] |} in
  Auth.check_auth PyBase64.b64decode config request ≠ Auth.CallNext request.
Proof.
  intros password config request.
  apply (non_ascii_setting_locks_out PyBase64.b64decode config request request).
  - reflexivity.
  - right. reflexivity.
Defined.

(** X8.  A configured user name that contains a colon locks everybody out:
    the user name of the credentials is what stands before their first
    colon, so it never equals such a setting, and no request is handed
    on. *)
Theorem colon_in_username_locks_out
    (b64decode : string -> option string) (config : Auth.Config)
    (request request' : Auth.Request) :
  Auth.basic_auth_activated config = true →
  contains ":"%char (Auth.basic_auth_username config) = true →
  Auth.check_auth b64decode config request ≠ Auth.CallNext request'.
Proof.
  intros Hact Hcolon Hnext.
  destruct (check_auth_CallNext _ _ _ _ Hact Hnext) as (h & scheme & token & _ & _ & _ & Hok).
  destruct (decode_and_check_Return _ _ _ Hok) as (credentials & sep & _ & Hpart & _).
  apply partition_head_no_sep in Hpart. congruence.
Qed.

(** X8, a concrete request: the user name is set to ["a:b"], the password to
    ["c"]; the credentials ["a:b:c"] are refused. *)
Lemma colon_in_username_locks_out_witness :
  let config := {| Auth.basic_auth_activated := true;
                   Auth.basic_auth_username := "a:b";
                   Auth.basic_auth_password := "c" |} in
  let request := {| Auth.scope := Auth.Http;
                    Auth.headers := [("authorization", "Basic YTpiOmM=")] |} in
  Auth.check_auth PyBase64.b64decode config request ≠ Auth.CallNext request.
Proof.
  intros config request.
  apply (colon_in_username_locks_out PyBase64.b64decode config request request);
    reflexivity.
Defined.

(** X9.  Everything the middleware can do: it hands on the very request it
    was given, or raises [HTTPException] with status 401 and one of four
    details, or lets the [TypeError] of [compare_digest] escape; the latter
    two only when basic auth is activated, and the [TypeError] only when a
    setting is not ASCII.  It raises no other status and no other
    exception. *)
Theorem check_auth_outcomes
    (b64decode : string -> option string) (config : Auth.Config)
    (request : Auth.Request) :
  match Auth.check_auth b64decode config request with
  | Auth.CallNext request' => request' = request
  | Auth.Raised (HTTPException status_code detail) =>
      Auth.basic_auth_activated config = true
      ∧ status_code = 401
      ∧ (detail = "no auth given" ∨ detail = "invalid token"
         ∨ detail = "invalid username/password"
         ∨ detail = "invalid authentication method")
  | Auth.Raised (OtherException name) =>
      Auth.basic_auth_activated config = true
      ∧ name = "TypeError"
      ∧ (is_ascii (Auth.basic_auth_username config) = false
         ∨ is_ascii (Auth.basic_auth_password config) = false)
  | Auth.Raised WebSocketDisconnect => False
  end.
Proof.
  unfold Auth.check_auth.
  destruct (Auth.basic_auth_activated config) eqn:Hact; simpl; [| done].
  destruct (Auth.auth_header_of request) as [h|]; [| by eauto 6].
  destruct (Auth.get_authorization_scheme_param h) as [scheme token].
  destruct (String.eqb (lower scheme) "basic"); [| by eauto 7].
  destruct (Auth.decode_and_check_basic_auth_or_raise b64decode config token)
    as [[]|e] eqn:Hcheck; [done |].
  destruct (decode_and_check_Raise _ _ _ _ Hcheck) as [-> | [-> | [-> Hnon]]];
    by eauto 7.
Qed.



(** ** The middleware in front of the endpoints *)

(** X11.  A refused request never reaches an endpoint: with basic auth
    activated and ASCII settings, for a request that falls under one of the
    four rejection cases [check_auth] raises the [HTTPException] with status
    401 and the detail of that case whatever [call_next] is; [call_next] is
    not run and the state behind the endpoints is left as it was. *)
Theorem rejected_request_never_reaches_endpoint
    (W : Type) (b64decode : string -> option string) (config : Auth.Config)
    (request : Auth.Request) (detail : string)
    (call_next : Auth.Request -> W -> result Http.Response * W) (w : W) :
  Auth.basic_auth_activated config = true →
  is_ascii (Auth.basic_auth_username config) = true →
  is_ascii (Auth.basic_auth_password config) = true →
  Rejected401 b64decode config request detail →
  Http.middleware b64decode config call_next request w
  = (Raise (HTTPException 401 detail), w).
Proof.
  intros Hact Hu Hp Hrej. unfold Http.middleware.
  destruct (check_auth_cases b64decode config Hu Hp request Hact)
    as [[_ Hnone] | (detail' & -> & _ & Honly)].
  - by apply Hnone in Hrej.
  - by rewrite (Honly detail Hrej).
Qed.

(** X11, a concrete request: a wrong password in front of an endpoint that
    would count its calls. *)
Lemma rejected_request_never_reaches_endpoint_witness :
  let config := {| Auth.basic_auth_activated := true;
                   Auth.basic_auth_username := "user";
                   Auth.basic_auth_password := "pass" |} in
  let request := {| Auth.scope := Auth.Http;
                    Auth.headers := [("authorization", "Basic dXNlcjpwYXM=")] |} in
  Http.middleware PyBase64.b64decode config
    (fun _ n => (Return Http.health, S n)) request 0
  = (Raise (HTTPException 401 "invalid username/password"), 0).
Proof.
  intros config request.
  apply (rejected_request_never_reaches_endpoint nat PyBase64.b64decode config
           request "invalid username/password");
    try reflexivity.
  apply (InvalidUsernamePassword PyBase64.b64decode config request
           "Basic dXNlcjpwYXM=" "Basic" "dXNlcjpwYXM=" "user:pas" "user" ":" "pas");
    try reflexivity.
  right. discriminate.
Defined.
